(** * sendmail: a shallow embedding of the SMTP transaction client
      ([nvsmtp.SendMail]) and of envelope construction and path selection
      ([sendmail.NewEnvelope], [Envelope.Send]).

    Go strings are byte sequences and are modelled by [string]; a Go [error]
    is modelled by its message.  The network peer is an arbitrary
    deterministic function of the session history, so every theorem about
    [SendMail] holds for all servers. *)

From Stdlib Require Import String Ascii List Bool Arith Lia.
From stdpp Require Import gmap strings sorting.
Import ListNotations.
Local Open Scope string_scope.
Local Open Scope list_scope.

(** ** Results of fallible Go functions: [(T, error)] *)

Abbreviation error := string.

Inductive result (A : Type) : Type :=
| Ok (a : A)
| Err (e : error).
Arguments Ok {A} a.
Arguments Err {A} e.

Definition is_Err {A} (r : result A) : Prop :=
  match r with Err _ => True | Ok _ => False end.

(** [for _, x := range l { if err := f(x); err != nil { return err } }] on a
    pure check. *)
Fixpoint check_all {A} (f : A -> result unit) (l : list A) : result unit :=
  match l with
  | [] => Ok tt
  | x :: l' => match f x with
               | Err e => Err e
               | Ok _ => check_all f l'
               end
  end.

(** ** Package nvsmtp *)
Module nvsmtp.

(** [strings.ContainsAny(s, chars)]: for ASCII [chars] the test is
    byte-wise. *)
Fixpoint contains_byte (c : ascii) (chars : string) : bool :=
  match chars with
  | EmptyString => false
  | String d rest => Ascii.eqb c d || contains_byte c rest
  end.

Fixpoint ContainsAny (s chars : string) : bool :=
  match s with
  | EmptyString => false
  | String c rest => contains_byte c chars || ContainsAny rest chars
  end.

Definition LF : ascii := ascii_of_nat 10.
Definition CR : ascii := ascii_of_nat 13.
Definition LFCR : string := String LF (String CR EmptyString).

Definition err_line : error := "smtp: A line must not contain CR or LF".
Definition err_no_auth : error := "smtp: server doesn't support AUTH".

(** validateLine checks to see if a line has CR or LF as per RFC 5321 *)
Definition validateLine (line : string) : result unit :=
  if ContainsAny line LFCR then Err err_line else Ok tt.

(** [tls.Config], the two fields [SendMail] sets. *)
Record TLSConfig := {
  ServerName : string;
  InsecureSkipVerify : bool
}.

Section Client.

(** [smtp.Auth] is an interface; a nil interface value is [None]. *)
Context {Auth : Type}.

(** The methods of [smtp.Client] (and of the writer returned by [Data])
    that talk to the server, plus [smtp.Dial] and the deferred [Close]. *)
Inductive Call :=
| Dial (addr : string)
| Hello (localName : string)
| StartTLS (config : TLSConfig)
| DoAuth (a : Auth)
| Mail (from : string)
| Rcpt (to : string)
| Data
| Write (msg : string)
| WriterClose
| Quit
| Close.

(** One performed call with the error it returned ([None] is [nil]). *)
Local Abbreviation Event := (Call * option error)%type.

(** The server: what it answers to a call, and which extensions it
    advertises, given everything that happened before on the session. *)
Record Peer := {
  reply : list Event -> Call -> option error;
  extension : list Event -> string -> bool
}.

(** Computations of [SendMail]: the log of performed calls is threaded
    through, and an error ends the rest of the function body. *)
Definition M (A : Type) : Type := list Event -> result A * list Event.

Definition ret {A} (a : A) : M A := fun h => (Ok a, h).

Definition bind {A B} (m : M A) (k : A -> M B) : M B :=
  fun h => match m h with
           | (Ok a, h') => k a h'
           | (Err e, h') => (Err e, h')
           end.

Definition raise {A} (e : error) : M A := fun h => (Err e, h).

Definition lift {A} (r : result A) : M A := fun h => (r, h).

(** [defer cleanup]: runs when the body returns, on every path; the value
    the deferred call returns is dropped. *)
Definition defer {A} (cleanup : M unit) (body : M A) : M A :=
  fun h => match body h with
           | (r, h') => (r, snd (cleanup h'))
           end.

Notation "x <- m ;; k" := (bind m (fun x => k))
  (at level 100, m at next level, right associativity).
Notation "m ;; k" := (bind m (fun _ => k))
  (at level 100, right associativity).

Fixpoint for_each {A} (f : A -> M unit) (l : list A) : M unit :=
  match l with
  | [] => ret tt
  | x :: l' => f x ;; for_each f l'
  end.

Variable P : Peer.

(** [os.Hostname()] and the host part of [net.SplitHostPort(addr)]; the
    errors of both are ignored by [SendMail]. *)
Variable hostname : string.
Variable SplitHostPort : string -> string.

Definition call (c : Call) : M unit :=
  fun h => match reply P h c with
           | None => (Ok tt, h ++ [(c, None)])
           | Some e => (Err e, h ++ [(c, Some e)])
           end.

Definition Extension (ext : string) : M bool :=
  fun h => (Ok (extension P h ext), h).

Definition SendMail (addr : string) (a : option Auth) (from : string)
    (to : list string) (msg : string) : M unit :=
  let serverName := SplitHostPort addr in
  lift (validateLine from) ;;
  lift (check_all validateLine to) ;;
  call (Dial addr) ;;
  defer (call Close) (
    call (Hello hostname) ;;
    (ok <- Extension "STARTTLS" ;;
     if ok then
       let config := {| ServerName := serverName;
                        InsecureSkipVerify := true |} in
       call (StartTLS config)
     else ret tt) ;;
    match a with
    | Some a =>
        ok <- Extension "AUTH" ;;
        if negb ok then raise err_no_auth
        else call (DoAuth a)
    | None => ret tt
    end ;;
    call (Mail from) ;;
    for_each (fun addr => call (Rcpt addr)) to ;;
    call Data ;;
    call (Write msg) ;;
    call WriterClose ;;
    call Quit).

(** A whole invocation: the returned error and the calls it performed. *)
Definition session (addr : string) (a : option Auth) (from : string)
    (to : list string) (msg : string) : result unit * list Event :=
  SendMail addr a from to msg [].

(** *** Vocabulary for statements about a session *)

Definition calls (tr : list Event) : list Call := map fst tr.

(** A call that returned no error. *)
Definition ok (c : Call) : Event := (c, None).

(** The commands that carry credentials or the envelope:
    AUTH, MAIL, RCPT, DATA. *)
Definition auth_or_envelope (c : Call) : bool :=
  match c with
  | DoAuth _ | Mail _ | Rcpt _ | Data => true
  | _ => false
  end.

Definition envelope_call (c : Call) : bool :=
  match c with
  | Mail _ | Rcpt _ | Data | Write _ | WriterClose => true
  | _ => false
  end.

Definition is_Dial (c : Call) : bool :=
  match c with Dial _ => true | _ => false end.

Definition is_Rcpt (c : Call) : bool :=
  match c with Rcpt _ => true | _ => false end.

(** The calls that are made on an open connection: all but [Dial], which
    opens it, and [Close], which closes it. *)
Definition on_connection (c : Call) : bool :=
  match c with Dial _ | Close => false | _ => true end.

(** Connections open after a log: a [Dial] that returned no error opens
    one, [Close] closes one. *)
Fixpoint open_after (n : nat) (tr : list Event) : nat :=
  match tr with
  | [] => n
  | (Dial _, None) :: tr' => open_after (S n) tr'
  | (Close, _) :: tr' => open_after (pred n) tr'
  | _ :: tr' => open_after n tr'
  end.

Definition tls_config (addr : string) : TLSConfig :=
  {| ServerName := SplitHostPort addr; InsecureSkipVerify := true |}.

(** The log once the connection is up and the greeting was accepted. *)
Definition greeted (addr : string) : list Event :=
  [ok (Dial addr); ok (Hello hostname)].

(** Does the server advertise STARTTLS in its answer to the greeting? *)
Definition tls_offered (addr : string) : bool :=
  extension P (greeted addr) "STARTTLS".

Definition upgrade (addr : string) : list Call :=
  if tls_offered addr then [StartTLS (tls_config addr)] else [].

Definition handshake (addr : string) : list Call :=
  [Dial addr; Hello hostname] ++ upgrade addr.

(** Does the server advertise AUTH once the handshake is done? *)
Definition auth_offered (addr : string) : bool :=
  extension P (map ok (handshake addr)) "AUTH".

Definition authenticate (a : option Auth) : list Call :=
  match a with Some x => [DoAuth x] | None => [] end.

Definition transfer (from : string) (to : list string) (msg : string)
    : list Call :=
  [Mail from] ++ map Rcpt to ++ [Data; Write msg; WriterClose; Quit].

(** The step that follows the handshake. *)
Definition after_handshake (a : option Auth) (from : string) : Call :=
  match a with Some x => DoAuth x | None => Mail from end.

(** The protocol steps of one session, in their order: connect, greeting,
    optional upgrade, optional authentication, sender, recipients, body,
    termination. *)
Definition plan (addr : string) (a : option Auth) (from : string)
    (to : list string) (msg : string) : list Call :=
  handshake addr ++ authenticate a ++ transfer from to msg.

(** Authentication can go ahead: none was asked for, or AUTH is offered. *)
Definition auth_ready (addr : string) (a : option Auth) : bool :=
  match a with Some _ => auth_offered addr | None => true end.

(** The steps that are attempted when none of them fails: the whole plan,
    or the handshake alone when credentials were given and AUTH is not
    offered. *)
Definition attempted (addr : string) (a : option Auth) (from : string)
    (to : list string) (msg : string) : list Call :=
  if auth_ready addr a then plan addr a from to msg else handshake addr.

(** Performing calls one after the other until the first one that fails. *)
Fixpoint perform (steps : list Call) (h : list Event)
    : option error * list Event :=
  match steps with
  | [] => (None, h)
  | c :: rest =>
      match reply P h c with
      | None => perform rest (h ++ [(c, None)])
      | Some e => (Some e, h ++ [(c, Some e)])
      end
  end.

(** The protocol steps are performed in order and the first failure ends
    the session: the possible results and logs of one invocation whose
    addresses are valid. *)
Inductive in_order (addr : string) (a : option Auth) (from : string)
    (to : list string) (msg : string) : result unit * list Event -> Prop :=
| all_steps_succeed rc :
    auth_ready addr a = true ->
    in_order addr a from to msg
      (Ok tt, map ok (plan addr a from to msg) ++ [(Close, rc)])
| connect_fails e :
    in_order addr a from to msg (Err e, [(Dial addr, Some e)])
| step_fails done c rest e rc :
    attempted addr a from to msg = (Dial addr :: done) ++ c :: rest ->
    in_order addr a from to msg
      (Err e, map ok (Dial addr :: done) ++ [(c, Some e); (Close, rc)])
| auth_unsupported x rc :
    a = Some x ->
    auth_offered addr = false ->
    in_order addr a from to msg
      (Err err_no_auth, map ok (handshake addr) ++ [(Close, rc)]).

(** The server accepts the connection, the greeting and, when it offers
    STARTTLS, the upgrade. *)
Definition handshake_accepted (addr : string) : Prop :=
  fst (perform (handshake addr) []) = None.

(** Every result in the log is what [reply P] gives for that call after
    the events logged before it. *)
Definition answered_by (tr : list Event) : Prop :=
  forall pre c r post, tr = pre ++ (c, r) :: post -> reply P pre c = r.

End Client.

Abbreviation Event := (Call * option error)%type.

(** An address with a carriage return or a line feed in it. *)
Definition has_line_break (s : string) : Prop :=
  In LF (list_ascii_of_string s) \/ In CR (list_ascii_of_string s).

(** Sender and recipients are all free of line breaks. *)
Definition clean (from : string) (to : list string) : Prop :=
  ~ has_line_break from /\ Forall (fun r => ~ has_line_break r) to.

End nvsmtp.

(** ** Package sendmail *)
Module sendmail.

(** Config of envelope *)
Record Config := {
  Sender : string;
  Recipients : list string;
  Subject : string;
  Body : string;
  PortSMTP : string
}.

(** [mail.Address] *)
Record Address := {
  Name : string;
  Addr : string
}.

(** [mail.Message]: [Header] is Go's [map[string][]string], [Body] the
    bytes still to be read. *)
Record Message := {
  Header : gmap string (list string);
  msg_Body : string
}.

(** Envelope of message *)
Record Envelope := {
  env_Message : Message;
  env_Recipients : list string;
  env_PortSMTP : string
}.

Definition set_Sender (s : string) (c : Config) : Config :=
  {| Sender := s; Recipients := Recipients c; Subject := Subject c;
     Body := Body c; PortSMTP := PortSMTP c |}.

Definition set_PortSMTP (p : string) (c : Config) : Config :=
  {| Sender := Sender c; Recipients := Recipients c; Subject := Subject c;
     Body := Body c; PortSMTP := p |}.

(** [msg.Header[key] = values] *)
Definition set_header (key : string) (values : list string) (m : Message)
    : Message :=
  {| Header := <[key := values]> (Header m); msg_Body := msg_Body m |}.

Definition is_empty (s : string) : bool :=
  match s with EmptyString => true | String _ _ => false end.

(** [strings.Join(elems, sep)] *)
Fixpoint Join (elems : list string) (sep : string) : string :=
  match elems with
  | [] => ""
  | [x] => x
  | x :: rest => x +:+ sep +:+ Join rest sep
  end.

Definition ErrHeaderNotPresent : error := "mail: header not in message".
Definition err_no_recipients : error := "no recipients listed".

Section Envelope.

(** Functions of net/mail, encoding/base64, os and os/user, and the two
    helpers of this package that [NewEnvelope] calls ([GetDumbMessage],
    [AddressListToSlice]). *)
Variable ReadMessage : string -> result Message.
Variable ParseAddressList : string -> result (list Address).
Variable EncodeToString : string -> string.
Variable user_Current : result string.
Variable os_Hostname : result string.
Variable GetDumbMessage : string -> list string -> string -> result Message.
Variable AddressListToSlice : list Address -> list string.

(** [h.Get(key)] for a key that is already in canonical form. *)
Definition Header_Get (h : gmap string (list string)) (key : string)
    : string :=
  match h !! key with
  | Some (v :: _) => v
  | _ => ""
  end.

(** [h.AddressList(key)] *)
Definition Header_AddressList (h : gmap string (list string))
    (key : string) : result (list Address) :=
  let hdr := Header_Get h key in
  if is_empty hdr then Err ErrHeaderNotPresent
  else ParseAddressList hdr.

(** Lines 42-50: the parsed message, or the dumb message when parsing
    fails and recipients were given. *)
Definition obtain_message (config : Config) : result Message :=
  match ReadMessage (Body config) with
  | Ok msg => Ok msg
  | Err e =>
      if (0 <? length (Recipients config))%nat then
        GetDumbMessage (Sender config) (Recipients config) (Body config)
      else Err e
  end.

(** Lines 56-73 *)
Definition resolve_sender (config : Config) (msg : Message)
    : Config * Message :=
  if negb (is_empty (Sender config)) then
    (config, set_header "From" [Sender config] msg)
  else
    let config :=
      match Header_AddressList (Header msg) "From" with
      | Ok (s :: _) => set_Sender (Addr s) config
      | _ => config
      end in
    if is_empty (Sender config) then
      match user_Current with
      | Ok username =>
          match os_Hostname with
          | Ok hostname =>
              let config := set_Sender (username +:+ "@" +:+ hostname) config in
              (config, set_header "From" [Sender config] msg)
          | Err _ => (config, msg)
          end
      | Err _ => (config, msg)
      end
    else (config, msg).

(** Lines 79-100: the recipient list, or the error of the "To" header. *)
Definition resolve_recipients (config : Config) (msg : Message)
    : result (list string) :=
  if (0 <? length (Recipients config))%nat then
    match ParseAddressList (Join (Recipients config) ",") with
    | Ok recipient => Ok (AddressListToSlice recipient)
    | Err _ => Ok []
    end
  else
    match Header_AddressList (Header msg) "To" with
    | Err e => Err e
    | Ok recipientsList =>
        let rcpt := fun field =>
          match Header_AddressList (Header msg) field with
          | Ok recipient => recipient
          | Err _ => []
          end in
        let recipientsList := recipientsList ++ rcpt "Cc" in
        let recipientsList := recipientsList ++ rcpt "Bcc" in
        Ok (AddressListToSlice recipientsList)
    end.

(** Lines 42-77: the message with its "From" and "Subject" headers set,
    and [config] with the port and the sender filled in. *)
Definition prepare (config : Config) : result (Config * Message) :=
  match obtain_message config with
  | Err e => Err e
  | Ok msg =>
      let config :=
        if is_empty (PortSMTP config) then set_PortSMTP "25" config
        else config in
      let '(config, msg) := resolve_sender config msg in
      let msg :=
        if negb (is_empty (Subject config)) then
          set_header "Subject"
            ["=?UTF-8?B?" +:+ EncodeToString (Subject config)] msg
        else msg in
      Ok (config, msg)
  end.

(** NewEnvelope return new message envelope.  [config] is passed by
    pointer and written to, so its final value is returned as well. *)
Definition NewEnvelope (config : Config) : Config * result Envelope :=
  match prepare config with
  | Err e => (config, Err e)
  | Ok (config, msg) =>
      match resolve_recipients config msg with
      | Err e => (config, Err e)
      | Ok recipients =>
          if (length recipients =? 0)%nat then
            (config, Err err_no_recipients)
          else
            (config, Ok {| env_Message := msg;
                           env_Recipients := recipients;
                           env_PortSMTP := PortSMTP config |})
      end
  end.

End Envelope.

(** The relay settings read from the configuration file. *)
Record relayConfig := {
  RelayHost : string;
  RelayLogin : string;
  RelayPassword : string
}.

(** What [Send] reads from the operating system. *)
Record OS := {
  ReadFile : string -> result string;
  Getenv : string -> string
}.

Section Send.

(** [Chan] is [<-chan Result]; [SendSmarthost] and [SendLikeMTA] are the
    two delivery methods of [Envelope]; [Unmarshal] is [yaml.Unmarshal]
    into a zero [relayConfig]. *)
Variable Chan : Type.
Variable SendSmarthost : Envelope -> string -> string -> string -> Chan.
Variable SendLikeMTA : Envelope -> Chan.
Variable Unmarshal : string -> result relayConfig.

(** Lines 129-147: the relay settings after the file and the environment
    have been consulted. *)
Definition resolve_relay (os : OS) : result relayConfig :=
  match ReadFile os "/etc/go-sendmail.yaml" with
  | Err err => Err ("Failed to read config file: " +:+ err)
  | Ok data =>
      match Unmarshal data with
      | Err err => Err ("Error while parsing config file: " +:+ err)
      | Ok rc =>
          let host :=
            if is_empty (RelayHost rc) then Getenv os "SENDMAIL_SMART_HOST"
            else RelayHost rc in
          let login :=
            if is_empty (RelayLogin rc) then Getenv os "SENDMAIL_SMART_LOGIN"
            else RelayLogin rc in
          let password :=
            if is_empty (RelayPassword rc)
            then Getenv os "SENDMAIL_SMART_PASSWORD"
            else RelayPassword rc in
          Ok {| RelayHost := host; RelayLogin := login;
                RelayPassword := password |}
      end
  end.

(** Send message.  It returns channel for results of send. *)
Definition Send (os : OS) (e : Envelope) : result Chan :=
  match resolve_relay os with
  | Err err => Err err
  | Ok rc =>
      if negb (is_empty (RelayHost rc)) then
        Ok (SendSmarthost e (RelayHost rc) (RelayLogin rc) (RelayPassword rc))
      else Ok (SendLikeMTA e)
  end.

End Send.

End sendmail.

(** ** Concrete servers and inputs *)
Module Examples.
Import nvsmtp.

(** The arguments of [smtp.PlainAuth]. *)
Record PlainAuth := {
  identity : string;
  username : string;
  password : string;
  host : string
}.

Definition credentials : PlainAuth :=
  {| identity := ""; username := "mailer"; password := "secret";
     host := "mx.example.org" |}.

(** The text before the first colon: the host of a "host:port" address. *)
Fixpoint host_of (addr : string) : string :=
  match addr with
  | EmptyString => EmptyString
  | String c rest =>
      if Ascii.eqb c ":" then EmptyString else String c (host_of rest)
  end.

(** Accepts every command; advertises no extension. *)
Definition accepting : @Peer PlainAuth :=
  {| reply := fun _ _ => None; extension := fun _ _ => false |}.

(** Accepts every command; advertises STARTTLS only. *)
Definition tls_peer : @Peer PlainAuth :=
  {| reply := fun _ _ => None;
     extension := fun _ ext => String.eqb ext "STARTTLS" |}.

Definition no_such_user : error := "550 5.1.1 no such user".

(** Rejects the recipient nobody@example.org and accepts everything
    else. *)
Definition picky : @Peer PlainAuth :=
  {| reply := fun _ c =>
       match c with
       | Rcpt r =>
           if String.eqb r "nobody@example.org" then Some no_such_user
           else None
       | _ => None
       end;
     extension := fun _ _ => false |}.

Definition bad_credentials : error := "535 5.7.8 authentication failed".

(** Advertises AUTH and rejects the credentials. *)
Definition auth_rejecting : @Peer PlainAuth :=
  {| reply := fun _ c =>
       match c with
       | DoAuth _ => Some bad_credentials
       | _ => None
       end;
     extension := fun _ ext => String.eqb ext "AUTH" |}.

Definition refused : error := "dial tcp 192.0.2.1:25: connection refused".

(** Nothing listens at the address. *)
Definition unreachable : @Peer PlainAuth :=
  {| reply := fun _ c =>
       match c with
       | Dial _ => Some refused
       | _ => None
       end;
     extension := fun _ _ => false |}.

(** Simple instances of the library functions [NewEnvelope] and [Send]
    are given: a reader that rejects every body, an address parser that
    accepts one bare address, a dumb message with a "To" header, a YAML
    reader that knows two files. *)
Import sendmail.

Definition read_fails (body : string) : result Message :=
  Err "malformed MIME header line".

Fixpoint has_at (s : string) : bool :=
  match s with
  | EmptyString => false
  | String c rest => Ascii.eqb c "@" || has_at rest
  end.

Definition parse_one (s : string) : result (list Address) :=
  if has_at s then Ok [{| Name := ""; Addr := s |}]
  else Err "mail: missing '@' or angle-addr".

Definition dumb_message (sender : string) (recipients : list string)
    (body : string) : result Message :=
  Ok {| Header := {[ "To" := [Join recipients ","] ]}; msg_Body := body |}.

Definition unparsable : Config :=
  {| Sender := "sender@example.org"; Recipients := ["undisclosed"];
     Subject := ""; Body := "hello"; PortSMTP := "" |}.

Definition to_rcpt : Config :=
  {| Sender := "sender@example.org"; Recipients := ["rcpt@example.org"];
     Subject := ""; Body := "hello"; PortSMTP := "" |}.

(** The two delivery paths, as values. *)
Inductive Route :=
| Smarthost (e : Envelope) (host login password : string)
| LikeMTA (e : Envelope).

Definition file_host : string := "relay_host: file.example.org:25".

Definition yaml_settings (data : string) : result relayConfig :=
  if String.eqb data file_host then
    Ok {| RelayHost := "file.example.org:25"; RelayLogin := "";
          RelayPassword := "" |}
  else if is_empty data then
    Ok {| RelayHost := ""; RelayLogin := ""; RelayPassword := "" |}
  else Err "yaml: unmarshal errors".

Definition env_relay (key : string) : string :=
  if String.eqb key "SENDMAIL_SMART_HOST" then "env.example.org:25"
  else if String.eqb key "SENDMAIL_SMART_LOGIN" then "envuser"
  else if String.eqb key "SENDMAIL_SMART_PASSWORD" then "envpass"
  else "".

Definition no_such_file : error :=
  "open /etc/go-sendmail.yaml: no such file or directory".

(** No configuration file; the relay is given in the environment. *)
Definition env_only : OS :=
  {| ReadFile := fun _ => Err no_such_file; Getenv := env_relay |}.

(** The file names the relay host; the environment has all three
    settings. *)
Definition file_and_env : OS :=
  {| ReadFile := fun _ => Ok file_host; Getenv := env_relay |}.

(** A file that is not YAML. *)
Definition garbled : OS :=
  {| ReadFile := fun _ => Ok "{"; Getenv := env_relay |}.

(** An empty file and an empty environment. *)
Definition no_relay : OS :=
  {| ReadFile := fun _ => Ok ""; Getenv := fun _ => "" |}.

Definition an_envelope : Envelope :=
  {| env_Message := {| Header := ∅; msg_Body := "hello" |};
     env_Recipients := ["rcpt@example.org"]; env_PortSMTP := "25" |}.

Definition injected : string :=
  String.append "a@example.org"
    (String CR (String LF "RCPT TO:<victim@example.org>")).

End Examples.

(** ** Package sendmail: the sender and the generated message *)
Module message.
Import sendmail.

Definition CRLF : string := String nvsmtp.CR (String nvsmtp.LF EmptyString).

(** [bytes.HasSuffix(s, suffix)] *)
Definition HasSuffix (s suffix : string) : bool :=
  (String.length suffix <=? String.length s)%nat &&
  String.eqb
    (substring (String.length s - String.length suffix)
       (String.length suffix) s)
    suffix.

(** [sort.Strings]: ascending in the byte-wise order of Go strings. *)
Definition sort_Strings (keys : list string) : list string :=
  merge_sort String.le keys.

(** [e.Header[key]]: a key that is not in the map gives nil. *)
Definition values_of (h : gmap string (list string)) (key : string)
    : list string :=
  match h !! key with
  | Some values => values
  | None => []
  end.

(** One pass of the loop over the sorted keys: a header line is written
    to the buffer. *)
Definition write_header (h : gmap string (list string)) (buf key : string)
    : string :=
  buf +:+ (key +:+ ": " +:+ Join (values_of h key) "," +:+ CRLF).

(** The envelope with what is left of its body after a read. *)
Definition set_Body (body : string) (e : Envelope) : Envelope :=
  {| env_Message := {| Header := Header (env_Message e); msg_Body := body |};
     env_Recipients := env_Recipients e;
     env_PortSMTP := env_PortSMTP e |}.

Definition err_empty_header : error := "empty header".

Section Generate.

(** [buf.ReadFrom(e.Body)]: the body is an [io.Reader], and [msg_Body] is
    what that reader still holds.  Reading it to its end gives the bytes
    read or the reader's error, and leaves the reader with the second
    component. *)
Variable ReadFrom : string -> result string * string.

(** GenerateMessage create body from mail.Message.  [keys] is the order
    in which [range e.Header] yields the keys, which Go leaves open.  The
    call reads from the body of the envelope, which is why the envelope
    is returned as well. *)
Definition GenerateMessage_from (keys : list string) (e : Envelope)
    : result string * Envelope :=
  let h := Header (env_Message e) in
  if (size h =? 0)%nat then (Err err_empty_header, e)
  else
    let keys := sort_Strings keys in
    let buf := fold_left (write_header h) keys "" in
    let buf := buf +:+ CRLF in
    let '(read, body) := ReadFrom (msg_Body (env_Message e)) in
    let e := set_Body body e in
    match read with
    | Err err => (Err err, e)
    | Ok data =>
        let buf := buf +:+ data in
        let buf := if negb (HasSuffix buf CRLF) then buf +:+ CRLF else buf in
        (Ok buf, e)
    end.

(** [GenerateMessage] with the keys taken in the order of the map's list
    of entries. *)
Definition GenerateMessage (e : Envelope) : result string * Envelope :=
  GenerateMessage_from (map fst (map_to_list (Header (env_Message e)))) e.

End Generate.

Section Sender.

Variable ParseAddressList : string -> result (list Address).

(** [e.GetSender()] *)
Definition GetSender (e : Envelope) : string :=
  match Header_AddressList ParseAddressList
          (Header (env_Message e)) "From" with
  | Ok (sender :: _) => Addr sender
  | _ => ""
  end.

End Sender.

End message.

(** ** Command sendmail *)
Module cmd.
Import sendmail.

(** [type arrayDomains []string] and its three methods. *)
Abbreviation arrayDomains := (list string).

Definition arrayDomains_String (d : arrayDomains) : string := Join d ",".

Definition arrayDomains_Set (d : arrayDomains) (value : string)
    : arrayDomains :=
  d ++ [value].

Fixpoint arrayDomains_Contains (d : arrayDomains) (str : string) : bool :=
  match d with
  | [] => false
  | domain :: rest =>
      if String.eqb domain str then true
      else arrayDomains_Contains rest str
  end.

(** The check of [main] on the domain of the sender: [false] is the
    fatal "Attempt to unauthorized send". *)
Definition sender_allowed (senderDomains : arrayDomains)
    (senderDomain : string) : bool :=
  negb ((0 <? length senderDomains)%nat &&
        negb (arrayDomains_Contains senderDomains senderDomain)).

Definition NL : string := String nvsmtp.LF EmptyString.

(** [bio.ReadBytes(delim)] on what is left of the input: the bytes up to
    and including the first [delim] and the rest, or, when there is no
    [delim], all the bytes with [None] for [io.EOF]. *)
Fixpoint ReadBytes (input : string) (delim : ascii)
    : string * option string :=
  match input with
  | EmptyString => (EmptyString, None)
  | String c rest =>
      if Ascii.eqb c delim then (String c EmptyString, Some rest)
      else
        let '(line, r) := ReadBytes rest delim in
        (String c line, r)
  end.

(** [bytes.Trim(s, cutset)] for an ASCII cutset. *)
Fixpoint TrimLeft (s cutset : string) : string :=
  match s with
  | EmptyString => EmptyString
  | String c rest =>
      if nvsmtp.contains_byte c cutset then TrimLeft rest cutset else s
  end.

Fixpoint TrimRight (s cutset : string) : string :=
  match s with
  | EmptyString => EmptyString
  | String c rest =>
      match TrimRight rest cutset with
      | EmptyString =>
          if nvsmtp.contains_byte c cutset then EmptyString
          else String c EmptyString
      | kept => String c kept
      end
  end.

Definition Trim (s cutset : string) : string :=
  TrimRight (TrimLeft s cutset) cutset.

(** The loop of [main] that reads the message from standard input, with
    at most [fuel] passes.  Standard input is a finite string of bytes,
    so the only error of [ReadBytes] is [io.EOF]. *)
Fixpoint read_loop (fuel : nat) (ignoreDot : bool) (input body : string)
    : string :=
  match fuel with
  | 0 => body
  | S fuel =>
      match ReadBytes input nvsmtp.LF with
      | (_, None) => body
      | (line, Some rest) =>
          if negb ignoreDot && String.eqb (Trim line NL) "." then body
          else read_loop fuel ignoreDot rest (body +:+ line)
      end
  end.

(** Every pass but the last takes at least one byte, so one pass more
    than the input has bytes is enough. *)
Definition read_stdin (ignoreDot : bool) (input : string) : string :=
  read_loop (S (String.length input)) ignoreDot input "".

(** A line of input: text without line feed, and the line feed. *)
Definition is_line (l : string) : Prop :=
  exists text, l = text +:+ NL /\ nvsmtp.ContainsAny text NL = false.

(** A line that does not end the input: its text is not a single dot. *)
Definition is_text_line (l : string) : Prop :=
  exists text,
    l = text +:+ NL /\ nvsmtp.ContainsAny text NL = false /\ text <> ".".

Definition join_lines (lines : list string) : string :=
  fold_right String.append "" lines.

End cmd.

(** ** More concrete inputs *)
Module Samples.
Import nvsmtp sendmail Examples.

(** Accepts everything but QUIT. *)
Definition quit_failing : @Peer PlainAuth :=
  {| reply := fun _ c =>
       match c with
       | Quit => Some "421 4.4.2 connection dropped"
       | _ => None
       end;
     extension := fun _ _ => false |}.

(** Advertises STARTTLS and AUTH and accepts everything. *)
Definition full_peer : @Peer PlainAuth :=
  {| reply := fun _ _ => None;
     extension := fun _ ext =>
       String.eqb ext "STARTTLS" || String.eqb ext "AUTH" |}.

(** Accepts everything but the close of the connection. *)
Definition close_failing : @Peer PlainAuth :=
  {| reply := fun _ c =>
       match c with
       | Close => Some "use of closed network connection"
       | _ => None
       end;
     extension := fun _ _ => false |}.

(** A message with a "To" and a "Cc" header and the given body. *)
Definition two_headers (body : string) : Message :=
  {| Header := {[ "To" := ["rcpt@example.org"];
                 "Cc" := ["copy@example.org"] ]};
     msg_Body := body |}.

Definition read_two_headers (body : string) : result Message :=
  Ok (two_headers body).

(** A message with a "Cc" header and no "To" header. *)
Definition read_cc_only (body : string) : result Message :=
  Ok {| Header := {[ "Cc" := ["copy@example.org"] ]}; msg_Body := body |}.

Definition from_headers : Config :=
  {| Sender := ""; Recipients := []; Subject := "";
     Body := "hello"; PortSMTP := "2525" |}.

Definition with_sender : Config :=
  {| Sender := "sender@example.org"; Recipients := ["rcpt@example.org"];
     Subject := "greetings"; Body := "hello"; PortSMTP := "" |}.

(** A message with a "From" and a "To" header. *)
Definition read_with_from (body : string) : result Message :=
  Ok {| Header := {[ "From" := ["author@example.org"];
                    "To" := ["rcpt@example.org"] ]};
        msg_Body := body |}.

(** The envelope of a call that succeeded, and the bytes of a generated
    message. *)
Definition envelope_of (r : Config * result Envelope) : Envelope :=
  match snd r with
  | Ok env => env
  | Err _ => an_envelope
  end.

Definition bytes_of (r : result string * Envelope) : string :=
  match fst r with
  | Ok out => out
  | Err _ => ""
  end.

Definition two_header_envelope (body : string) : Envelope :=
  {| env_Message := two_headers body;
     env_Recipients := ["rcpt@example.org"]; env_PortSMTP := "25" |}.

(** A body held in memory, as [bytes.NewReader] gives it: reading it to
    the end yields all of it and leaves nothing. *)
Definition in_memory (body : string) : result string * string :=
  (Ok body, "").

(** A body whose reader breaks after its first byte. *)
Definition connection_reset : error := "read: connection reset by peer".

Definition breaking (body : string) : result string * string :=
  (Err connection_reset, substring 1 (String.length body - 1) body).

End Samples.

(** * Properties of the SMTP transaction client *)
Module nvsmtp_proofs.
Import nvsmtp.

(** ** Address validation *)

Lemma contains_byte_LFCR (c : ascii) :
  contains_byte c LFCR = true <-> c = LF \/ c = CR.
Proof.
  unfold LFCR. cbn [contains_byte].
  rewrite !orb_true_iff, !Ascii.eqb_eq. intuition discriminate.
Qed.

Lemma ContainsAny_LFCR (s : string) :
  ContainsAny s LFCR = true <-> has_line_break s.
Proof.
  unfold has_line_break.
  induction s as [|c s IH]; cbn [ContainsAny list_ascii_of_string In].
  - intuition discriminate.
  - rewrite orb_true_iff, contains_byte_LFCR, IH.
    intuition (subst; auto).
Qed.

Lemma validateLine_ok (s : string) :
  ~ has_line_break s -> validateLine s = Ok tt.
Proof.
  intros H. unfold validateLine.
  destruct (ContainsAny s LFCR) eqn:E; [|reflexivity].
  apply ContainsAny_LFCR in E. contradiction.
Qed.

Lemma validateLine_cases (s : string) :
  (has_line_break s /\ validateLine s = Err err_line) \/
  (~ has_line_break s /\ validateLine s = Ok tt).
Proof.
  unfold validateLine.
  destruct (ContainsAny s LFCR) eqn:E.
  - left. split; [now apply ContainsAny_LFCR | reflexivity].
  - right. split; [|reflexivity].
    intros H. apply ContainsAny_LFCR in H. congruence.
Qed.

Lemma check_all_ok (to : list string) :
  Forall (fun r => ~ has_line_break r) to ->
  check_all validateLine to = Ok tt.
Proof.
  induction 1 as [|r to Hr _ IH]; cbn [check_all]; [reflexivity|].
  now rewrite (validateLine_ok r Hr).
Qed.

Lemma check_all_err (to : list string) :
  Exists has_line_break to ->
  check_all validateLine to = Err err_line.
Proof.
  induction to as [|r to IH]; intros H; [now inversion H|].
  cbn [check_all].
  destruct (validateLine_cases r) as [[_ ->]|[Hr ->]]; [reflexivity|].
  apply IH. inversion H; subst; [contradiction | assumption].
Qed.

Lemma ContainsAny_false (s : string) :
  ContainsAny s LFCR = false -> ~ has_line_break s.
Proof. intros E H. apply ContainsAny_LFCR in H. congruence. Qed.

Lemma clean_by_check (from : string) (to : list string) :
  ContainsAny from LFCR = false ->
  forallb (fun r => negb (ContainsAny r LFCR)) to = true ->
  clean from to.
Proof.
  intros Hf Ht. split; [now apply ContainsAny_false|].
  induction to as [|r to IH]; constructor.
  - apply ContainsAny_false. cbn [forallb] in Ht.
    now destruct (ContainsAny r LFCR).
  - apply IH. cbn [forallb] in Ht. now apply andb_true_iff in Ht.
Qed.

(** A list made of three parts is cut at an element that can only lie in
    the middle part. *)
Lemma split_in_middle {X} (K : X -> bool) (A m B done : list X) (c : X)
    (rest : list X) :
  forallb (fun x => negb (K x)) A = true ->
  forallb (fun x => negb (K x)) B = true ->
  K c = true ->
  A ++ m ++ B = done ++ c :: rest ->
  exists m1 m2, m = m1 ++ c :: m2 /\ done = A ++ m1 /\ rest = m2 ++ B.
Proof.
  intros HA HB Hc. revert done.
  induction A as [|x A IHA]; intros done E.
  - cbn [app] in E. revert done E.
    induction m as [|y m IHm]; intros done E.
    + exfalso. cbn [app] in E.
      assert (I : In c B) by (rewrite E; apply in_elt).
      rewrite forallb_forall in HB. specialize (HB c I).
      rewrite Hc in HB. discriminate HB.
    + destruct done as [|d done]; cbn [app] in E; inversion E; subst.
      * now exists [], m.
      * destruct (IHm done H1) as (m1 & m2 & -> & -> & ->).
        now exists (d :: m1), m2.
  - cbn [forallb] in HA. apply andb_true_iff in HA as [Hx HA].
    destruct done as [|d done]; cbn [app] in E; inversion E; subst.
    + rewrite Hc in Hx. discriminate Hx.
    + destruct (IHA HA done H1) as (m1 & m2 & -> & -> & ->).
      now exists m1, m2.
Qed.

Section Session.

Context {Auth : Type}.
Variable P : @Peer Auth.
Variable hostname : string.
Variable SplitHostPort : string -> string.

Local Abbreviation SendMail := (SendMail P hostname SplitHostPort).
Local Abbreviation session := (session P hostname SplitHostPort).
Local Abbreviation perform := (perform P).
Local Abbreviation plan := (plan P hostname SplitHostPort).
Local Abbreviation attempted := (attempted P hostname SplitHostPort).
Local Abbreviation handshake := (handshake P hostname SplitHostPort).
Local Abbreviation upgrade := (upgrade P hostname SplitHostPort).
Local Abbreviation tls_offered := (tls_offered P hostname).
Local Abbreviation auth_offered := (auth_offered P hostname SplitHostPort).
Local Abbreviation auth_ready := (auth_ready P hostname SplitHostPort).
Local Abbreviation in_order := (in_order P hostname SplitHostPort).
Local Abbreviation greeted := (@greeted Auth hostname).
Local Abbreviation tls_config := (tls_config SplitHostPort).
Local Abbreviation handshake_accepted :=
  (handshake_accepted P hostname SplitHostPort).
Local Abbreviation answered_by := (answered_by P).

(** ** Performing calls in order *)

Lemma perform_app (l1 l2 : list Call) (h : list Event) :
  perform (l1 ++ l2) h =
  match perform l1 h with
  | (None, h') => perform l2 h'
  | (Some e, h') => (Some e, h')
  end.
Proof.
  revert h. induction l1 as [|c l1 IH]; intros h; cbn [perform app].
  - reflexivity.
  - destruct (reply P h c); [reflexivity | apply IH].
Qed.

(** Either every call succeeds, or the log stops at the first call the
    server answers with an error. *)
Lemma perform_cases (steps : list Call) (h : list Event) :
  perform steps h = (None, h ++ map ok steps) \/
  exists done c rest e,
    steps = done ++ c :: rest /\
    reply P (h ++ map ok done) c = Some e /\
    perform steps h = (Some e, h ++ map ok done ++ [(c, Some e)]).
Proof.
  revert h. induction steps as [|c steps IH]; intros h; cbn [perform map].
  - left. now rewrite app_nil_r.
  - destruct (reply P h c) as [e|] eqn:E.
    + right. exists [], c, steps, e. cbn. rewrite app_nil_r. auto.
    + destruct (IH (h ++ [(c, None)])) as [->|(done & c' & rest & e & -> & R & ->)].
      * left. now rewrite <- app_assoc.
      * right. exists (c :: done), c', rest, e. cbn [map app].
        rewrite <- !app_assoc in *. cbn [app] in *. auto.
Qed.

Lemma perform_all_ok (steps : list Call) (h : list Event) :
  fst (perform steps h) = None ->
  perform steps h = (None, h ++ map ok steps).
Proof.
  intros H. destruct (perform_cases steps h) as [E|(d & c & r & e & _ & _ & E)];
    [assumption|]. rewrite E in H. discriminate.
Qed.

Lemma for_each_perform {A} (f : A -> Call) (l : list A) (h : list Event) :
  for_each (fun x => call P (f x)) l h =
  match perform (map f l) h with
  | (None, h') => (Ok tt, h')
  | (Some e, h') => (Err e, h')
  end.
Proof.
  revert h. induction l as [|x l IH]; intros h; cbn [for_each map perform].
  - reflexivity.
  - unfold bind, call at 1. destruct (reply P h (f x)); [reflexivity | apply IH].
Qed.


(** ** Running the body of [SendMail] *)

Lemma call_log (c : Call) (h : list Event) :
  snd (call P c h) = h ++ [(c, reply P h c)].
Proof. unfold call. now destruct (reply P h c). Qed.

Lemma bind_call {B} (c : Call) (k : unit -> @M Auth B) (h : list Event) :
  bind (call P c) k h =
  match reply P h c with
  | None => k tt (h ++ [(c, None)])
  | Some e => (Err e, h ++ [(c, Some e)])
  end.
Proof. unfold bind, call. now destruct (reply P h c). Qed.

Lemma bind_Extension {B} (ext : string) (k : bool -> @M Auth B) (h : list Event) :
  bind (Extension P ext) k h = k (extension P h ext) h.
Proof. reflexivity. Qed.

Lemma bind_assoc {A B C} (m : @M Auth A) (k1 : A -> @M Auth B) (k2 : B -> @M Auth C)
    (h : list Event) :
  bind (bind m k1) k2 h = bind m (fun x => bind (k1 x) k2) h.
Proof. unfold bind. now destruct (m h) as [[x|e] h']. Qed.

Lemma bind_ret {A B} (x : A) (k : A -> @M Auth B) (h : list Event) :
  bind (ret x) k h = k x h.
Proof. reflexivity. Qed.

Lemma bind_raise {A B} (e : error) (k : A -> @M Auth B) (h : list Event) :
  bind (@raise Auth A e) k h = (Err e, h).
Proof. reflexivity. Qed.

(** The MAIL, RCPT, DATA and QUIT part of [SendMail]. *)
Lemma transfer_perform from to msg (h : list Event) :
  bind (call P (Mail from)) (fun _ =>
  bind (for_each (fun addr => call P (Rcpt addr)) to) (fun _ =>
  bind (call P Data) (fun _ =>
  bind (call P (Write msg)) (fun _ =>
  bind (call P WriterClose) (fun _ =>
  call P Quit))))) h =
  match perform (transfer from to msg) h with
  | (None, h') => (Ok tt, h')
  | (Some e, h') => (Err e, h')
  end.
Proof.
  unfold transfer. cbn [app perform]. rewrite bind_call.
  destruct (reply P h (Mail from)); [reflexivity|].
  rewrite perform_app. unfold bind at 1. rewrite for_each_perform.
  destruct (perform (map Rcpt to) _) as [[e|] h1]; [reflexivity|].
  cbn [perform]. rewrite bind_call.
  destruct (reply P h1 Data); [reflexivity|]. rewrite bind_call.
  destruct (reply P _ (Write msg)); [reflexivity|]. rewrite bind_call.
  destruct (reply P _ WriterClose); [reflexivity|].
  unfold call. now destruct (reply P _ Quit).
Qed.

Ltac run_head :=
  repeat first
    [ rewrite transfer_perform
    | rewrite bind_assoc
    | rewrite bind_Extension
    | rewrite bind_ret
    | rewrite bind_raise
    | match goal with
      | H : extension P ?h ?e = _ |- context [extension P ?h ?e] => rewrite H
      end
    | progress cbn [app negb]
    | rewrite bind_call;
      lazymatch goal with
      | |- match reply P ?h ?c with _ => _ end = _ =>
          destruct (reply P h c); [reflexivity|]
      end ];
  cbn [app negb].

Lemma session_clean addr a from to msg :
  clean from to ->
  session addr a from to msg =
  match reply P [] (Dial addr) with
  | Some e => (Err e, [(Dial addr, Some e)])
  | None =>
      let '(r, h) := perform (tl (attempted addr a from to msg))
                             [ok (Dial addr)] in
      (match r with
       | Some e => Err e
       | None => if auth_ready addr a then Ok tt else Err err_no_auth
       end,
       h ++ [(Close, reply P h Close)])
  end.
Proof.
  intros [Hf Ht]. unfold nvsmtp.session, nvsmtp.SendMail.
  rewrite (validateLine_ok _ Hf), (check_all_ok _ Ht).
  unfold bind at 1 2 3, lift, call at 1. cbn [app].
  destruct (reply P [] (Dial addr)) as [e|] eqn:ED; [reflexivity|].
  unfold defer. rewrite (surjective_pairing (perform _ _)).
  set (body := bind _ _ _).
  enough (E : body =
    match perform (tl (attempted addr a from to msg)) [ok (Dial addr)] with
    | (Some e, h) => (Err e, h)
    | (None, h) => (if auth_ready addr a then Ok tt else Err err_no_auth, h)
    end).
  { rewrite E. destruct (perform _ _) as [[e|] h]; cbn [fst snd];
      now rewrite call_log. }
  subst body.
  unfold nvsmtp.attempted, nvsmtp.auth_ready, nvsmtp.plan, nvsmtp.auth_offered,
    nvsmtp.handshake, nvsmtp.upgrade, nvsmtp.tls_offered, greeted,
    authenticate, ok, nvsmtp.tls_config.
  destruct (extension P _ "STARTTLS") eqn:ET; destruct a as [x|];
    cbn [app tl map];
    try destruct (extension P _ "AUTH") eqn:EA;
    cbn [app tl map perform]; run_head;
    try reflexivity; now destruct (perform _ _) as [[e|] h].
Qed.

Lemma session_dirty addr a from to msg :
  has_line_break from \/ Exists has_line_break to ->
  session addr a from to msg = (Err err_line, []).
Proof.
  intros H. unfold nvsmtp.session, nvsmtp.SendMail, bind at 1 2, lift.
  destruct (validateLine_cases from) as [[_ ->]|[Hf ->]]; [reflexivity|].
  destruct H as [H|H]; [contradiction|].
  now rewrite (check_all_err _ H).
Qed.

Lemma clean_or_dirty from to :
  clean from to \/ (has_line_break from \/ Exists has_line_break to).
Proof.
  unfold clean.
  destruct (validateLine_cases from) as [[Hf _]|[Hf _]]; [auto|].
  assert (D : Forall (fun r => ~ has_line_break r) to \/
              Exists has_line_break to).
  { induction to as [|r to [IH|IH]]; auto.
    destruct (validateLine_cases r) as [[Hr _]|[Hr _]]; auto. }
  tauto.
Qed.

Lemma attempted_head addr a from to msg :
  attempted addr a from to msg =
  Dial addr :: tl (attempted addr a from to msg).
Proof. unfold nvsmtp.attempted. now destruct auth_ready. Qed.

(** Every invocation with valid addresses performs the plan in order up
    to its first failure. *)
Lemma session_in_order addr a from to msg :
  clean from to ->
  in_order addr a from to msg (session addr a from to msg).
Proof.
  intros Hc. rewrite (session_clean _ _ _ _ _ Hc).
  destruct (reply P [] (Dial addr)) as [e|]; [apply connect_fails|].
  destruct (perform_cases (tl (attempted addr a from to msg)) [ok (Dial addr)])
    as [E|(done & c & rest & e & Hs & _ & E)]; rewrite E; clear E.
  - destruct (auth_ready addr a) eqn:R.
    + replace ([ok (Dial addr)] ++ map ok (tl (attempted addr a from to msg)))
        with (map ok (plan addr a from to msg)).
      * now apply all_steps_succeed.
      * unfold nvsmtp.attempted. rewrite R. reflexivity.
    + destruct a as [x|]; [|discriminate R].
      replace ([ok (Dial addr)] ++ map ok (tl (attempted addr (Some x) from to msg)))
        with (map ok (handshake addr)).
      * now apply auth_unsupported with x.
      * unfold nvsmtp.attempted. rewrite R. reflexivity.
  - replace (([ok (Dial addr)] ++ map ok done ++ [(c, Some e)]) ++
             [(Close, reply P ([ok (Dial addr)] ++ map ok done ++ [(c, Some e)]) Close)])
      with (map ok (Dial addr :: done) ++
            [(c, Some e); (Close, reply P ([ok (Dial addr)] ++ map ok done ++ [(c, Some e)]) Close)]).
    + apply step_fails with rest.
      rewrite attempted_head, Hs. reflexivity.
    + cbn [map app]. rewrite <- !app_assoc. reflexivity.
Qed.


Lemma perform_log (steps : list Call) (h : list Event) :
  exists ext, snd (perform steps h) = h ++ ext.
Proof.
  destruct (perform_cases steps h) as [E|(d & c & r & e & _ & _ & E)];
    rewrite E; eauto.
Qed.

(** ** Validation comes before the network *)

(** C3: when the sender or a recipient contains a carriage return or a
    line feed, [SendMail] returns the validation error and its log is
    empty: nothing was dialed.  Addresses free of both characters pass
    [validateLine], and the first thing the session then does is dial. *)
Theorem SendMail_validates_addresses addr a from to msg :
  (has_line_break from \/ Exists has_line_break to ->
     session addr a from to msg = (Err err_line, [])) /\
  (clean from to ->
     validateLine from = Ok tt /\
     check_all validateLine to = Ok tt /\
     exists r rest,
       snd (session addr a from to msg) = (Dial addr, r) :: rest).
Proof.
  split.
  - apply session_dirty.
  - intros Hc. destruct (Hc) as [Hf Ht].
    split; [now apply validateLine_ok|]. split; [now apply check_all_ok|].
    rewrite (session_clean _ _ _ _ _ Hc).
    destruct (reply P [] (Dial addr)) as [e|]; [now eexists _, _|].
    destruct (perform_log (tl (attempted addr a from to msg)) [ok (Dial addr)])
      as [ext E].
    destruct (perform _ _) as [r h]. cbn [snd] in *. subst h.
    now eexists _, _.
Qed.

(** ** Opportunistic transport security *)

Lemma perform_accepted (c : Call) (l : list Call) (h : list Event) :
  reply P h c = None ->
  perform (c :: l) h = perform l (h ++ [(c, None)]).
Proof. intros E. cbn [perform]. now rewrite E. Qed.

Lemma perform_first (c : Call) (l : list Call) (h : list Event) :
  exists r post, snd (perform (c :: l) h) = h ++ (c, r) :: post.
Proof.
  cbn [perform]. destruct (reply P h c) as [e|].
  - now exists (Some e), [].
  - destruct (perform_log l (h ++ [(c, None)])) as [ext ->].
    exists None, ext. now rewrite <- app_assoc.
Qed.

(** What a call of the plan can be. *)
Lemma in_plan addr a from to msg (c : Call) :
  In c (plan addr a from to msg) ->
  c = Dial addr \/ c = Hello hostname \/
  (tls_offered addr = true /\ c = StartTLS (tls_config addr)) \/
  (exists x, a = Some x /\ c = DoAuth x) \/
  c = Mail from \/ (exists r, In r to /\ c = Rcpt r) \/
  c = Data \/ c = Write msg \/ c = WriterClose \/ c = Quit.
Proof.
  unfold nvsmtp.plan, nvsmtp.handshake, nvsmtp.upgrade, authenticate, transfer.
  intros H.
  apply in_app_or in H as [H|H]; [apply in_app_or in H as [H|H]|
    apply in_app_or in H as [H|H];
      [|apply in_app_or in H as [H|H]; [|apply in_app_or in H as [H|H]]]].
  - cbn [In] in H. destruct H as [<-|[<-|[]]]; auto.
  - destruct (tls_offered addr); [|destruct H].
    destruct H as [<-|[]]. auto.
  - destruct a as [x|]; [|destruct H]. destruct H as [<-|[]].
    do 3 right. left. now exists x.
  - destruct H as [<-|[]]. auto 6.
  - apply in_map_iff in H as (r & <- & Hr). do 5 right. left. now exists r.
  - cbn [In] in H. destruct H as [<-|[<-|[<-|[<-|[]]]]]; auto 12.
Qed.

Lemma in_handshake addr (c : Call) :
  In c (handshake addr) ->
  c = Dial addr \/ c = Hello hostname \/
  (tls_offered addr = true /\ c = StartTLS (tls_config addr)).
Proof.
  unfold nvsmtp.handshake, nvsmtp.upgrade.
  destruct (tls_offered addr); cbn [In app]; intuition (subst; auto).
Qed.

Lemma in_attempted addr a from to msg (c : Call) :
  In c (attempted addr a from to msg) ->
  In c (plan addr a from to msg).
Proof.
  unfold nvsmtp.attempted. destruct (auth_ready addr a); [auto|].
  unfold nvsmtp.plan. rewrite in_app_iff. auto.
Qed.

Lemma calls_map_ok (l : list (@Call Auth)) : calls (map ok l) = l.
Proof.
  unfold calls. rewrite map_map. cbn [ok fst]. apply map_id.
Qed.

Lemma calls_app (l1 l2 : list (@Call Auth * option error)) :
  calls (l1 ++ l2) = calls l1 ++ calls l2.
Proof. apply map_app. Qed.

(** Every call of a session is a step of the plan or the deferred close. *)
Lemma in_order_calls addr a from to msg st (c : Call) :
  in_order addr a from to msg st ->
  In c (calls (snd st)) ->
  In c (attempted addr a from to msg) \/ c = Close.
Proof.
  intros [rc R|e|done c' rest e rc E|x rc -> R]; cbn [snd].
  - rewrite calls_app, calls_map_ok, in_app_iff. cbn [calls map fst In].
    unfold nvsmtp.attempted. rewrite R. intuition.
  - cbn [calls map fst In]. intros [<-|[]]. left.
    rewrite attempted_head. now left.
  - rewrite calls_app, calls_map_ok, E, !in_app_iff.
    cbn [calls map fst In]. intuition.
  - rewrite calls_app, calls_map_ok, in_app_iff. cbn [calls map fst In].
    unfold nvsmtp.attempted, nvsmtp.auth_ready. rewrite R. intuition.
Qed.

Lemma session_calls addr a from to msg (c : Call) :
  In c (calls (snd (session addr a from to msg))) ->
  In c (plan addr a from to msg) \/ c = Close.
Proof.
  destruct (clean_or_dirty from to) as [Hc|Hd].
  - intros H.
    destruct (in_order_calls _ _ _ _ _ _ c
                (session_in_order addr a from to msg Hc) H) as [H'|H'];
      [left; now apply in_attempted | now right].
  - rewrite (session_dirty _ _ _ _ _ Hd). intros [].
Qed.

Lemma attempted_upgrade addr a from to msg :
  tls_offered addr = true ->
  exists rest,
    attempted addr a from to msg =
    Dial addr :: Hello hostname ::
      StartTLS (tls_config addr) :: rest.
Proof.
  intros T. unfold nvsmtp.attempted, nvsmtp.plan, nvsmtp.handshake,
    nvsmtp.upgrade. rewrite T.
  destruct (auth_ready addr a); cbn [app]; eauto.
Qed.

(** C5: when the server does not advertise STARTTLS no upgrade is ever
    requested and, once connect and greeting are accepted, the session
    goes straight on to the next step (AUTH with credentials, MAIL
    without); when it does advertise STARTTLS, the upgrade is the call
    that follows the greeting.  Whenever an upgrade is requested, its
    configuration has [InsecureSkipVerify] set and names the host of the
    address, and the log up to it consists of connect and greeting only,
    so no AUTH, MAIL, RCPT or DATA precedes it. *)
Theorem SendMail_opportunistic_tls addr a from to msg :
  let tr := snd (session addr a from to msg) in
  (tls_offered addr = false ->
     (forall cfg, ~ In (StartTLS cfg) (calls tr)) /\
     (clean from to ->
      reply P [] (Dial addr) = None ->
      reply P [ok (Dial addr)] (Hello hostname) = None ->
      auth_ready addr a = true ->
      exists r post,
        tr = greeted addr ++ (after_handshake a from, r) :: post)) /\
  (tls_offered addr = true ->
     clean from to ->
     reply P [] (Dial addr) = None ->
     reply P [ok (Dial addr)] (Hello hostname) = None ->
     exists r post,
       tr = greeted addr ++
            (StartTLS (tls_config addr), r) :: post) /\
  (forall cfg, In (StartTLS cfg) (calls tr) ->
     InsecureSkipVerify cfg = true /\
     ServerName cfg = SplitHostPort addr /\
     forallb (fun c => negb (auth_or_envelope c))
       (calls (greeted addr)) = true /\
     exists r post, tr = greeted addr ++ (StartTLS cfg, r) :: post).
Proof.
  intros tr. subst tr. split; [|split].
  - intros T. split.
    + intros cfg H. apply session_calls in H as [H|H]; [|discriminate H].
      apply in_plan in H.
      destruct H as [H|[H|[[T' _]|[(x & _ & H)|[H|[(r & _ & H)|[H|[H|[H|H]]]]]]]]];
        congruence.
    + intros Hc HD HH R. rewrite (session_clean _ _ _ _ _ Hc), HD.
      unfold nvsmtp.attempted. rewrite R.
      unfold nvsmtp.plan, nvsmtp.handshake, nvsmtp.upgrade. rewrite T.
      cbn [app tl]. rewrite (perform_accepted _ _ _ HH). cbn [app].
      assert (E : authenticate a ++ transfer from to msg =
                  after_handshake a from ::
                  tl (authenticate a ++ transfer from to msg))
        by now destruct a.
      rewrite E.
      destruct (perform_first (after_handshake a from)
                  (tl (authenticate a ++ transfer from to msg))
                  [ok (Dial addr); (Hello hostname, None)]) as (r & post & L).
      destruct (perform _ _) as [o h]. cbn [snd] in *. subst h.
      exists r, (post ++ [(Close,
        reply P ([ok (Dial addr); (Hello hostname, None)] ++
                 (after_handshake a from, r) :: post) Close)]).
      unfold nvsmtp.greeted, ok. now rewrite <- app_assoc.
  - intros T Hc HD HH. rewrite (session_clean _ _ _ _ _ Hc), HD.
    destruct (attempted_upgrade addr a from to msg T) as [rest ->].
    cbn [tl]. rewrite (perform_accepted _ _ _ HH). cbn [app].
    destruct (perform_first (StartTLS (tls_config addr)) rest
                [ok (Dial addr); (Hello hostname, None)]) as (r & post & L).
    destruct (perform _ _) as [o h]. cbn [snd] in *. subst h.
    exists r, (post ++ [(Close,
      reply P ([ok (Dial addr); (Hello hostname, None)] ++
               (StartTLS (tls_config addr), r) :: post) Close)]).
    unfold nvsmtp.greeted, ok. now rewrite <- app_assoc.
  - intros cfg H.
    assert (T : tls_offered addr = true /\
                cfg = tls_config addr).
    { apply session_calls in H as [H|H]; [|discriminate H].
      apply in_plan in H.
      destruct H as [H|[H|[[T' H]|[(x & _ & H)|[H|[(r & _ & H)|[H|[H|[H|H]]]]]]]]];
        try discriminate H. split; [assumption | congruence]. }
    destruct T as [T ->]. repeat split.
    destruct (clean_or_dirty from to) as [Hc|Hd];
      [|rewrite (session_dirty _ _ _ _ _ Hd) in H; destruct H].
    pose proof (session_in_order addr a from to msg Hc) as O.
    destruct (attempted_upgrade addr a from to msg T) as [rest A].
    destruct O as [rc R|e|done c' rest' e rc E|x rc -> R]; cbn [snd] in *.
    + unfold nvsmtp.attempted in A. rewrite R in A. rewrite A.
      cbn [map app]. now eexists _, _.
    + cbn in H. destruct H as [H|[]]. discriminate H.
    + rewrite A in E.
      destruct done as [|d1 [|d2 done]]; cbn [app] in E;
        inversion E; subst; clear E.
      * cbn in H. destruct H as [H|[H|[H|[]]]]; discriminate H.
      * cbn [map app]. now eexists _, _.
      * cbn [map app]. now eexists _, _.
    + unfold nvsmtp.handshake, nvsmtp.upgrade. rewrite T.
      cbn [map app]. now eexists _, _.
Qed.

(** ** The connection *)

Lemma on_connection_plan addr a from to msg :
  forallb on_connection (tl (plan addr a from to msg)) = true.
Proof.
  unfold nvsmtp.plan, nvsmtp.handshake, nvsmtp.upgrade, authenticate, transfer.
  assert (R : forall l : list (@Call Auth),
            forallb on_connection
              (map Rcpt to ++ l) = forallb on_connection l).
  { intros l. induction to as [|r to' IH]; [reflexivity | exact IH]. }
  destruct (tls_offered addr), a as [x|]; cbn [app tl forallb on_connection];
    cbn [andb]; now rewrite R.
Qed.

Lemma on_connection_attempted addr a from to msg :
  forallb on_connection (tl (attempted addr a from to msg)) = true.
Proof.
  unfold nvsmtp.attempted. destruct (auth_ready addr a).
  - apply on_connection_plan.
  - unfold nvsmtp.handshake, nvsmtp.upgrade. now destruct (tls_offered addr).
Qed.

Lemma open_after_app (l1 l2 : list (@Call Auth * option error)) (n : nat) :
  open_after n (l1 ++ l2) = open_after (open_after n l1) l2.
Proof.
  revert n. induction l1 as [|[c r] l1 IH]; intros n; [reflexivity|].
  cbn [app open_after]. destruct c, r; apply IH.
Qed.

Lemma open_after_on_connection (l : list (@Call Auth * option error)) (n : nat) :
  forallb on_connection (calls l) = true -> open_after n l = n.
Proof.
  induction l as [|[c r] l IH]; [reflexivity|].
  cbn [calls map fst forallb]. intros H. apply andb_true_iff in H as [Hc Hl].
  destruct c, r; try discriminate Hc; cbn [open_after]; now apply IH.
Qed.

Lemma no_Dial_on_connection (l : list (@Call Auth)) :
  forallb on_connection l = true -> List.filter is_Dial l = [].
Proof.
  induction l as [|c l IH]; [reflexivity|]. cbn [forallb List.filter].
  intros H. apply andb_true_iff in H as [Hc Hl].
  destruct c; try discriminate Hc; now apply IH.
Qed.

(** Once the dial succeeded the log is: the dial, calls on the
    connection, the close. *)
Lemma session_log addr a from to msg :
  clean from to ->
  reply P [] (Dial addr) = None ->
  exists mid rc,
    snd (session addr a from to msg) =
      (Dial addr, None) :: mid ++ [(Close, rc)] /\
    forallb on_connection (calls mid) = true.
Proof.
  intros Hc HD. rewrite (session_clean _ _ _ _ _ Hc), HD.
  pose proof (on_connection_attempted addr a from to msg) as Q.
  destruct (perform_cases (tl (attempted addr a from to msg)) [ok (Dial addr)])
    as [E|(done & c & rest & e & Hs & _ & E)]; rewrite E; cbn [snd].
  - eexists (map ok _), _. split; [reflexivity|]. now rewrite calls_map_ok.
  - eexists (map ok done ++ [(c, Some e)]), _. split; [reflexivity|].
    rewrite calls_app, calls_map_ok. cbn [calls map fst].
    rewrite Hs in Q. rewrite forallb_app in Q |- *.
    apply andb_true_iff in Q as [Q1 Q2]. cbn [forallb] in *.
    apply andb_true_iff in Q2 as [Q2 _]. now rewrite Q1, Q2.
Qed.

(** C7: an invocation with valid addresses dials exactly once; when the
    dial succeeds, every later call is made on that connection and the
    last call of the invocation closes it, whichever step failed; when
    validation fails nothing is dialed, and when the dial fails there is
    nothing to close.  In every case no connection is open when
    [SendMail] returns. *)
Theorem SendMail_closes_connection addr a from to msg :
  let tr := snd (session addr a from to msg) in
  open_after 0 tr = 0 /\
  (has_line_break from \/ Exists has_line_break to -> tr = []) /\
  (clean from to ->
     List.filter is_Dial (calls tr) = [Dial addr] /\
     (forall e, reply P [] (Dial addr) = Some e ->
        tr = [(Dial addr, Some e)]) /\
     (reply P [] (Dial addr) = None ->
        exists mid rc,
          tr = (Dial addr, None) :: mid ++ [(Close, rc)] /\
          forallb on_connection (calls mid) = true)).
Proof.
  intros tr. subst tr.
  assert (D : has_line_break from \/ Exists has_line_break to ->
              snd (session addr a from to msg) = [])
    by (intros Hd; now rewrite session_dirty).
  assert (F : forall e, clean from to -> reply P [] (Dial addr) = Some e ->
              snd (session addr a from to msg) = [(Dial addr, Some e)])
    by (intros e Hc HD; now rewrite session_clean, HD).
  split; [|split; [exact D|]].
  - destruct (clean_or_dirty from to) as [Hc|Hd]; [|now rewrite D].
    destruct (reply P [] (Dial addr)) as [e|] eqn:HD; [now rewrite (F e)|].
    destruct (session_log addr a from to msg Hc HD) as (mid & rc & -> & Q).
    cbn [open_after]. rewrite open_after_app, (open_after_on_connection mid 1 Q).
    reflexivity.
  - intros Hc. split; [|split; [intros e; now apply F | now apply session_log]].
    destruct (reply P [] (Dial addr)) as [e|] eqn:HD; [now rewrite (F e)|].
    destruct (session_log addr a from to msg Hc HD) as (mid & rc & -> & Q).
    cbn [calls map fst List.filter is_Dial]. f_equal.
    fold (calls (mid ++ [(Close, rc)])).
    rewrite calls_app, List.filter_app, (no_Dial_on_connection _ Q).
    reflexivity.
Qed.

(** ** A rejected recipient *)

Lemma ok_not_rejected (l : list (@Call Auth)) (c : Call) (e : error) :
  ~ In (c, Some e) (map ok l).
Proof.
  intros H. apply in_map_iff in H as (c' & E & _). discriminate E.
Qed.

(** The only event of a session that carries an error, apart from the
    close, is the step that failed. *)
Lemma in_order_rejected addr a from to msg st (c : Call) (e : error) :
  in_order addr a from to msg st ->
  c <> Close ->
  In (c, Some e) (snd st) ->
  fst st = Err e /\
  exists done rest rc,
    attempted addr a from to msg = done ++ c :: rest /\
    snd st = map ok done ++ [(c, Some e); (Close, rc)] \/
    (done = [] /\ c = Dial addr /\ snd st = [(Dial addr, Some e)]).
Proof.
  intros [rc R|e'|done c' rest e' rc E|x rc -> R] NC; cbn [fst snd];
    intros H.
  - apply in_app_or in H as [H|H]; [now apply ok_not_rejected in H|].
    destruct H as [H|[]]. congruence.
  - destruct H as [H|[]]. inversion H; subst. split; [reflexivity|].
    exists [], [], None. now right.
  - apply in_app_or in H as [H|H]; [now apply ok_not_rejected in H|].
    destruct H as [H|[H|[]]]; [|congruence]. inversion H; subst.
    split; [reflexivity|]. exists (Dial addr :: done), rest, rc. now left.
  - apply in_app_or in H as [H|H]; [now apply ok_not_rejected in H|].
    destruct H as [H|[]]. congruence.
Qed.

Lemma filter_Rcpt (l : list string) :
  List.filter is_Rcpt (map (@Rcpt Auth) l) = map Rcpt l.
Proof. induction l as [|r l IH]; [reflexivity|]. cbn. now rewrite IH. Qed.

(** C1, as the code has it: when the server rejects a recipient, [SendMail]
    returns that rejection as its error; the rejected RCPT is the last
    command of the session (only the deferred close follows), so the
    recipients before it in the list were declared, the ones after it are
    not, and DATA is not sent. *)
Theorem SendMail_rcpt_rejection_ends_session addr a from to msg r e :
  let st := session addr a from to msg in
  In (Rcpt r, Some e) (snd st) ->
  fst st = Err e /\
  (exists pre rc, snd st = pre ++ [(Rcpt r, Some e); (Close, rc)]) /\
  (exists before after,
     to = before ++ r :: after /\
     List.filter is_Rcpt (calls (snd st)) = map Rcpt (before ++ [r])) /\
  ~ In Data (calls (snd st)).
Proof.
  intros st H. subst st.
  destruct (clean_or_dirty from to) as [Hc|Hd];
    [|rewrite (session_dirty _ _ _ _ _ Hd) in H; destruct H].
  pose proof (session_in_order addr a from to msg Hc) as O.
  destruct (in_order_rejected _ _ _ _ _ _ (Rcpt r) e O) as
    (R & done & rest & rc & [[E L]|(_ & E & _)]);
    [discriminate | exact H | | discriminate E].
  split; [exact R|]. rewrite L. clear O H R L.
  split; [now eexists _, _|].
  assert (Hr : auth_ready addr a = true).
  { destruct (auth_ready addr a) eqn:Hr; [reflexivity|].
    unfold nvsmtp.attempted in E. rewrite Hr in E.
    assert (I : In (Rcpt r) (handshake addr)) by (rewrite E; apply in_elt).
    apply in_handshake in I as [I|[I|[_ I]]]; discriminate I. }
  unfold nvsmtp.attempted in E. rewrite Hr in E.
  unfold nvsmtp.plan, transfer in E.
  replace (handshake addr ++ authenticate a ++
           [Mail from] ++ map Rcpt to ++ [Data; Write msg; WriterClose; Quit])
    with ((handshake addr ++ authenticate a ++ [Mail from]) ++
          map Rcpt to ++ [Data; Write msg; WriterClose; Quit]) in E
    by now rewrite <- !app_assoc.
  apply (split_in_middle is_Rcpt) in E as (m1 & m2 & Em & -> & ->);
    [| unfold nvsmtp.handshake, nvsmtp.upgrade;
       now destruct (tls_offered addr), a | reflexivity | reflexivity].
  apply List.map_eq_app in Em as (before & tl' & -> & <- & Em).
  apply List.map_eq_cons in Em as (r' & after & -> & Er & <-).
  injection Er as ->.
  rewrite calls_app, calls_map_ok. cbn [calls map fst].
  split.
  - exists before, after. split; [reflexivity|].
    rewrite <- !app_assoc, !List.filter_app, filter_Rcpt, map_app.
    cbn [List.filter is_Rcpt map].
    replace (List.filter is_Rcpt (handshake addr)) with (@nil (@Call Auth))
      by (unfold nvsmtp.handshake, nvsmtp.upgrade;
          now destruct (tls_offered addr)).
    replace (List.filter is_Rcpt (authenticate a)) with (@nil (@Call Auth))
      by now destruct a.
    reflexivity.
  - rewrite <- !app_assoc, !in_app_iff, in_map_iff. cbn [In].
    intros [I|[I|[I|[I|I]]]].
    + apply in_handshake in I as [I|[I|[_ I]]]; discriminate I.
    + destruct a; cbn in I; [destruct I as [I|[]]; discriminate I | destruct I].
    + destruct I as [I|[]]. discriminate I.
    + destruct I as (x & I & _). discriminate I.
    + destruct I as [I|[I|[]]]; discriminate I.
Qed.

(** ** Authentication *)

Lemma handshake_accepted_perform addr :
  handshake_accepted addr ->
  reply P [] (Dial addr) = None /\
  perform (tl (handshake addr)) [ok (Dial addr)] =
    (None, map ok (handshake addr)).
Proof.
  unfold nvsmtp.handshake_accepted. intros H.
  apply perform_all_ok in H. revert H.
  unfold nvsmtp.handshake. cbn [app tl perform].
  destruct (reply P [] (Dial addr)); [discriminate|]. auto.
Qed.

Lemma transfer_no_auth from to msg :
  forallb (fun c : @Call Auth =>
             negb match c with DoAuth _ => true | _ => false end)
    (transfer from to msg) = true.
Proof.
  unfold transfer. cbn [app forallb negb andb].
  induction to as [|r to' IH]; [reflexivity | exact IH].
Qed.


(** ** The order of the protocol steps *)

Lemma answered_snoc (h : list Event) (c : Call) :
  answered_by h -> answered_by (h ++ [(c, reply P h c)]).
Proof.
  intros H pre c' r post E.
  destruct post as [|z post] using rev_ind.
  - apply app_inj_tail in E as [-> E]. now injection E as <- <-.
  - rewrite app_comm_cons, app_assoc in E.
    apply app_inj_tail in E as [E _]. now apply (H pre c' r post).
Qed.

Lemma perform_answered (steps : list Call) (h : list Event) :
  answered_by h -> answered_by (snd (perform steps h)).
Proof.
  revert h. induction steps as [|c steps IH]; intros h H; [exact H|].
  cbn [perform]. pose proof (answered_snoc h c H) as S.
  destruct (reply P h c) as [e|]; [exact S | now apply IH].
Qed.

(** The log of a session holds the answers of the server and nothing
    else. *)
Lemma session_answered addr a from to msg :
  answered_by (snd (session addr a from to msg)).
Proof.
  assert (N : answered_by []) by (intros [|x pre] c r post E; discriminate E).
  destruct (clean_or_dirty from to) as [Hc|Hd];
    [|now rewrite (session_dirty _ _ _ _ _ Hd)].
  rewrite (session_clean _ _ _ _ _ Hc).
  pose proof (answered_snoc [] (Dial addr) N) as D. cbn [app] in D.
  destruct (reply P [] (Dial addr)) as [e|]; [exact D|].
  pose proof (perform_answered (tl (attempted addr a from to msg)) _ D) as A.
  destruct (perform _ _) as [r h]. cbn [snd] in *.
  now apply answered_snoc.
Qed.

(** After accepted steps the next step of the plan is performed. *)
Lemma perform_rejected (c : Call) (l : list Call) (h : list Event) e :
  reply P h c = Some e ->
  perform (c :: l) h = (Some e, h ++ [(c, Some e)]).
Proof. intros E. cbn [perform]. now rewrite E. Qed.

Lemma perform_next (done : list Call) :
  forall (h : list Event) (c next : Call) (rest : list Call)
         (post : list Event),
    snd (perform (done ++ c :: next :: rest) h) =
      h ++ map ok done ++ (c, None) :: post ->
    exists r post', post = (next, r) :: post'.
Proof.
  induction done as [|d done IH]; intros h c next rest post E.
  - cbn [app map] in E.
    destruct (reply P h c) as [e|] eqn:R.
    + rewrite (perform_rejected _ _ _ _ R) in E.
      cbn [snd] in E. apply app_inv_head in E. discriminate E.
    + rewrite (perform_accepted _ _ _ R) in E.
      destruct (perform_first next rest (h ++ [(c, None)]))
        as (r & post' & L).
      rewrite L, <- app_assoc in E. apply app_inv_head in E.
      injection E as <-. now exists r, post'.
  - cbn [app map] in E.
    destruct (reply P h d) as [e|] eqn:R.
    + rewrite (perform_rejected _ _ _ _ R) in E.
      cbn [snd] in E. apply app_inv_head in E. discriminate E.
    + rewrite (perform_accepted _ _ _ R) in E.
      apply (IH (h ++ [(d, None)]) c next rest post).
      now rewrite E, <- app_assoc.
Qed.

Lemma session_next addr a from to msg done c next rest post :
  clean from to ->
  attempted addr a from to msg = done ++ c :: next :: rest ->
  snd (session addr a from to msg) = map ok done ++ (c, None) :: post ->
  exists r post', post = (next, r) :: post'.
Proof.
  intros Hc A. rewrite (session_clean _ _ _ _ _ Hc).
  pose proof (on_connection_attempted addr a from to msg) as Q.
  pose proof (attempted_head addr a from to msg) as Hd.
  rewrite A in Q, Hd |- *.
  destruct done as [|d done]; cbn [app tl map] in *.
  - injection Hd as ->.
    destruct (reply P [] (Dial addr)) as [e|]; [discriminate|].
    destruct (perform_first next rest [ok (Dial addr)]) as (r & post' & L).
    destruct (perform _ _) as [o h]. cbn [snd] in *. subst h.
    intros E. cbn [app] in E. injection E as <-. now eexists _, _.
  - injection Hd as ->.
    destruct (reply P [] (Dial addr)) as [e|];
      [intros E; destruct done; discriminate E|].
    destruct (perform_log (done ++ c :: next :: rest) [ok (Dial addr)])
      as [ext L].
    pose proof (perform_next done [ok (Dial addr)] c next rest) as N.
    destruct (perform _ _) as [o h]. cbn [snd] in *. subst h.
    intros E. cbn [app] in E. injection E as E.
    destruct post as [|z post] using rev_ind.
    + exfalso. apply app_inj_tail in E as [_ E]. injection E as <-.
      rewrite forallb_app in Q. apply andb_true_iff in Q as [_ Q].
      discriminate Q.
    + clear IHpost. rewrite app_comm_cons, app_assoc in E.
      apply app_inj_tail in E as [E _].
      destruct (N post) as (r & post' & ->); [now rewrite E|].
      now eexists _, _.
Qed.

(** C6: with valid addresses, [SendMail] performs connect, greeting with
    the local host name, the upgrade when STARTTLS is offered, the
    authentication when credentials were given, MAIL, one RCPT per
    recipient in the order of the list, DATA with the message written as
    one stream, and QUIT, in this order; the first step that fails makes
    it return that error with none of the later steps performed (only
    the deferred close of the connection follows).  So the calls of a
    session are an initial part of this list of steps, the whole of it
    when [SendMail] returns no error; every result in the log is the
    answer the server gave to that call at that point, so a step is
    reported as failed only when it did fail; and a step that was
    accepted is followed by the next step of the plan. *)
Theorem SendMail_steps_in_order addr a from to msg :
  clean from to ->
  let st := session addr a from to msg in
  in_order addr a from to msg st /\
  (exists performed remaining,
     plan addr a from to msg = performed ++ remaining /\
     (calls (snd st) = performed ++ [Close] \/
      (performed = [Dial addr] /\ calls (snd st) = [Dial addr])) /\
     (fst st = Ok tt -> remaining = [])) /\
  answered_by (snd st) /\
  (forall done c next rest post,
     attempted addr a from to msg = done ++ c :: next :: rest ->
     snd st = map ok done ++ (c, None) :: post ->
     exists r post', post = (next, r) :: post').
Proof.
  intros Hc st. subst st.
  pose proof (session_in_order addr a from to msg Hc) as O.
  split; [exact O|].
  split; [|split; [apply session_answered|]];
    [|intros done c next rest post; now apply session_next].
  assert (A : exists later,
            plan addr a from to msg = attempted addr a from to msg ++ later).
  { unfold nvsmtp.attempted. destruct (auth_ready addr a).
    - exists []. now rewrite app_nil_r.
    - now exists (authenticate a ++ transfer from to msg). }
  destruct A as [later A].
  destruct O as [rc R|e|done c rest e rc E|x rc -> R]; cbn [fst snd].
  - exists (plan addr a from to msg), []. rewrite app_nil_r.
    rewrite calls_app, calls_map_ok. auto.
  - exists [Dial addr], (tl (plan addr a from to msg)).
    split; [reflexivity|]. split; [now right | discriminate].
  - exists ((Dial addr :: done) ++ [c]), (rest ++ later).
    rewrite A, E, <- !app_assoc. split; [reflexivity|].
    rewrite calls_app, calls_map_ok. cbn [calls map fst].
    split; [left; reflexivity | discriminate].
  - exists (handshake addr),
      (authenticate (Some x) ++ transfer from to msg).
    split; [reflexivity|]. rewrite calls_app, calls_map_ok.
    split; [now left | discriminate].
Qed.

End Session.

Section Witnesses.
Import Examples.

Local Abbreviation run P := (session P "client.example.org" host_of).

(** A complete session with a server that accepts everything. *)
Example accepted_session :
  run accepting "mx.example.org:25" None "sender@example.org"
    ["a@example.org"; "b@example.org"] "hi"
  = (Ok tt,
     [(Dial "mx.example.org:25", None); (Hello "client.example.org", None);
      (Mail "sender@example.org", None); (Rcpt "a@example.org", None);
      (Rcpt "b@example.org", None); (Data, None); (Write "hi", None);
      (WriterClose, None); (Quit, None); (Close, None)]).
Proof. reflexivity. Qed.

(** Rejected credentials: the session stops at AUTH. *)
Example rejected_credentials :
  run auth_rejecting "mx.example.org:25" (Some credentials)
    "sender@example.org" ["a@example.org"] "hi"
  = (Err bad_credentials,
     [(Dial "mx.example.org:25", None); (Hello "client.example.org", None);
      (DoAuth credentials, Some bad_credentials); (Close, None)]).
Proof. reflexivity. Qed.

Lemma SendMail_validates_addresses_witness :
  run accepting "mx.example.org:25" None "sender@example.org" [injected] "hi"
    = (Err err_line, []) /\
  exists r rest,
    snd (run accepting "mx.example.org:25" None "sender@example.org"
           ["rcpt@example.org"] "hi")
    = (Dial "mx.example.org:25", r) :: rest.
Proof.
  split.
  - apply (proj1 (SendMail_validates_addresses accepting "client.example.org"
                    host_of "mx.example.org:25" None "sender@example.org"
                    [injected] "hi")).
    right. apply Exists_cons_hd. apply ContainsAny_LFCR. reflexivity.
  - apply (proj2 (SendMail_validates_addresses accepting "client.example.org"
                    host_of "mx.example.org:25" None "sender@example.org"
                    ["rcpt@example.org"] "hi")).
    apply clean_by_check; reflexivity.
Defined.

Lemma SendMail_steps_in_order_witness :
  in_order picky "client.example.org" host_of
    "mx.example.org:25" None "sender@example.org"
    ["user@example.org"; "nobody@example.org"] "hi"
    (run picky "mx.example.org:25" None "sender@example.org"
       ["user@example.org"; "nobody@example.org"] "hi") /\
  reply picky
    [(Dial "mx.example.org:25", None); (Hello "client.example.org", None);
     (Mail "sender@example.org", None); (Rcpt "user@example.org", None)]
    (Rcpt "nobody@example.org") = Some no_such_user /\
  exists r post',
    [(@Rcpt PlainAuth "user@example.org", @None error);
     (Rcpt "nobody@example.org", Some no_such_user); (Close, None)]
    = (Rcpt "user@example.org", r) :: post'.
Proof.
  destruct (SendMail_steps_in_order picky "client.example.org" host_of
              "mx.example.org:25" None "sender@example.org"
              ["user@example.org"; "nobody@example.org"] "hi")
    as (O & _ & A & N); [apply clean_by_check; reflexivity|].
  split; [exact O|]. split.
  - exact (A [(Dial "mx.example.org:25", None);
              (Hello "client.example.org", None);
              (Mail "sender@example.org", None);
              (Rcpt "user@example.org", None)]
             (Rcpt "nobody@example.org") (Some no_such_user)
             [(Close, None)] eq_refl).
  - exact (N [Dial "mx.example.org:25"; Hello "client.example.org"]
             (Mail "sender@example.org") (Rcpt "user@example.org")
             [Rcpt "nobody@example.org"; Data; Write "hi"; WriterClose; Quit]
             _ eq_refl eq_refl).
Defined.


(** C1, as stated, fails: the server below rejects nobody@example.org
    and would accept user@example.org at any point of any session, yet
    [SendMail] returns the rejection as the error of the whole session,
    and neither the RCPT for user@example.org nor DATA is sent. *)
Lemma SendMail_rcpt_rejection_aborts_all :
  let st := run picky "mx.example.org:25" None "sender@example.org"
              ["nobody@example.org"; "user@example.org"] "hi" in
  (forall h, reply picky h (Rcpt "user@example.org") = None) /\
  st = (Err no_such_user,
        [(Dial "mx.example.org:25", None);
         (Hello "client.example.org", None);
         (Mail "sender@example.org", None);
         (Rcpt "nobody@example.org", Some no_such_user);
         (Close, None)]) /\
  ~ In (Rcpt "user@example.org") (calls (snd st)) /\
  ~ In Data (calls (snd st)).
Proof.
  cbv zeta. split; [reflexivity|]. split; [reflexivity|].
  split; cbn; intros H;
    repeat (destruct H as [H|H]; [discriminate H|]); exact H.
Qed.

Lemma SendMail_rcpt_rejection_ends_session_witness :
  let st := run picky "mx.example.org:25" None "sender@example.org"
              ["user@example.org"; "nobody@example.org";
               "other@example.org"] "hi" in
  In (Rcpt "nobody@example.org", Some no_such_user) (snd st) /\
  fst st = Err no_such_user /\
  ~ In Data (calls (snd st)).
Proof.
  cbv zeta.
  assert (H : In (Rcpt "nobody@example.org", Some no_such_user)
                (snd (run picky "mx.example.org:25" None "sender@example.org"
                        ["user@example.org"; "nobody@example.org";
                         "other@example.org"] "hi")))
    by (do 4 right; left; reflexivity).
  split; [exact H|].
  destruct (SendMail_rcpt_rejection_ends_session picky "client.example.org"
              host_of "mx.example.org:25" None "sender@example.org"
              ["user@example.org"; "nobody@example.org"; "other@example.org"]
              "hi" "nobody@example.org" no_such_user H) as (R & _ & _ & D).
  split; [exact R | exact D].
Defined.


Lemma SendMail_opportunistic_tls_witness :
  ((forall cfg,
      ~ In (StartTLS cfg)
          (calls (snd (run accepting "mx.example.org:25" None
                         "sender@example.org" ["rcpt@example.org"] "hi")))) /\
   exists r post,
     snd (run accepting "mx.example.org:25" None "sender@example.org"
            ["rcpt@example.org"] "hi")
     = [(Dial "mx.example.org:25", None); (Hello "client.example.org", None)]
       ++ (Mail "sender@example.org", r) :: post) /\
  (exists r post,
     snd (run tls_peer "mx.example.org:25" None "sender@example.org"
            ["rcpt@example.org"] "hi")
     = [(Dial "mx.example.org:25", None); (Hello "client.example.org", None)]
       ++ (StartTLS {| ServerName := "mx.example.org";
                       InsecureSkipVerify := true |}, r) :: post) /\
  InsecureSkipVerify
    {| ServerName := "mx.example.org"; InsecureSkipVerify := true |} = true.
Proof.
  assert (Hc : clean "sender@example.org" ["rcpt@example.org"])
    by (apply clean_by_check; reflexivity).
  split; [|split].
  - destruct (SendMail_opportunistic_tls accepting "client.example.org"
                host_of "mx.example.org:25" None "sender@example.org"
                ["rcpt@example.org"] "hi") as [A _].
    destruct (A eq_refl) as [A1 A2]. split; [exact A1|].
    exact (A2 Hc eq_refl eq_refl eq_refl).
  - destruct (SendMail_opportunistic_tls tls_peer "client.example.org"
                host_of "mx.example.org:25" None "sender@example.org"
                ["rcpt@example.org"] "hi") as (_ & B & _).
    exact (B eq_refl Hc eq_refl eq_refl).
  - destruct (SendMail_opportunistic_tls tls_peer "client.example.org"
                host_of "mx.example.org:25" None "sender@example.org"
                ["rcpt@example.org"] "hi") as (_ & _ & C).
    refine (proj1 (C {| ServerName := "mx.example.org";
                        InsecureSkipVerify := true |} _)).
    do 2 right; left; reflexivity.
Defined.

Lemma SendMail_closes_connection_witness :
  snd (run accepting "mx.example.org:25" None injected
         ["rcpt@example.org"] "hi") = [] /\
  snd (run unreachable "mx.example.org:25" None "sender@example.org"
         ["rcpt@example.org"] "hi")
  = [(Dial "mx.example.org:25", Some refused)] /\
  List.filter is_Dial
    (calls (snd (run picky "mx.example.org:25" None "sender@example.org"
                   ["nobody@example.org"] "hi")))
  = [Dial "mx.example.org:25"] /\
  exists mid rc,
    snd (run picky "mx.example.org:25" None "sender@example.org"
           ["nobody@example.org"] "hi")
    = (Dial "mx.example.org:25", None) :: mid ++ [(Close, rc)] /\
    forallb on_connection (calls mid) = true.
Proof.
  split; [|split; [|split]].
  - destruct (SendMail_closes_connection accepting "client.example.org"
                host_of "mx.example.org:25" None injected
                ["rcpt@example.org"] "hi") as (_ & D & _).
    apply D. left. apply ContainsAny_LFCR. reflexivity.
  - destruct (SendMail_closes_connection unreachable "client.example.org"
                host_of "mx.example.org:25" None "sender@example.org"
                ["rcpt@example.org"] "hi") as (_ & _ & C).
    destruct C as (_ & F & _); [apply clean_by_check; reflexivity|].
    apply F. reflexivity.
  - destruct (SendMail_closes_connection picky "client.example.org"
                host_of "mx.example.org:25" None "sender@example.org"
                ["nobody@example.org"] "hi") as (_ & _ & C).
    destruct C as (C & _); [apply clean_by_check; reflexivity|].
    exact C.
  - destruct (SendMail_closes_connection picky "client.example.org"
                host_of "mx.example.org:25" None "sender@example.org"
                ["nobody@example.org"] "hi") as (_ & _ & C).
    destruct C as (_ & _ & C); [apply clean_by_check; reflexivity|].
    exact (C eq_refl).
Defined.

End Witnesses.

End nvsmtp_proofs.

(** * Properties of envelope construction and of path selection *)
Module sendmail_proofs.
Import sendmail.

Lemma is_empty_true (s : string) : is_empty s = true <-> s = "".
Proof. destruct s; cbn; intuition discriminate. Qed.

Lemma is_empty_false (s : string) : is_empty s = false <-> s <> "".
Proof. destruct s; cbn; intuition (discriminate || congruence). Qed.

Section Envelope.

Variable ReadMessage : string -> result Message.
Variable ParseAddressList : string -> result (list Address).
Variable EncodeToString : string -> string.
Variable user_Current : result string.
Variable os_Hostname : result string.
Variable GetDumbMessage : string -> list string -> string -> result Message.
Variable AddressListToSlice : list Address -> list string.

Local Abbreviation obtain_message :=
  (obtain_message ReadMessage GetDumbMessage).
Local Abbreviation resolve_sender :=
  (resolve_sender ParseAddressList user_Current os_Hostname).
Local Abbreviation resolve_recipients :=
  (resolve_recipients ParseAddressList AddressListToSlice).
Local Abbreviation prepare :=
  (prepare ReadMessage ParseAddressList EncodeToString user_Current
     os_Hostname GetDumbMessage).
Local Abbreviation NewEnvelope :=
  (NewEnvelope ReadMessage ParseAddressList EncodeToString user_Current
     os_Hostname GetDumbMessage AddressListToSlice).

(** Resolving the sender leaves the recipients of [config] alone. *)
Lemma resolve_sender_Recipients config msg :
  Recipients (fst (resolve_sender config msg)) = Recipients config.
Proof.
  unfold sendmail.resolve_sender.
  destruct (negb (is_empty (Sender config))); [reflexivity|].
  destruct (Header_AddressList ParseAddressList (Header msg) "From")
    as [[|s l]|e]; cbn [fst];
    repeat match goal with
           | |- context [if ?b then _ else _] => destruct b
           | |- context [match ?r with Ok _ => _ | Err _ => _ end] =>
               destruct r
           end; reflexivity.
Qed.

Lemma prepare_Recipients config config' msg :
  prepare config = Ok (config', msg) ->
  Recipients config' = Recipients config.
Proof.
  unfold sendmail.prepare.
  destruct (obtain_message config) as [m|e]; [|discriminate].
  set (c1 := if is_empty (PortSMTP config) then _ else _).
  pose proof (resolve_sender_Recipients c1 m) as R.
  destruct (resolve_sender c1 m) as [c2 m2]. cbn [fst] in R.
  intros E. injection E as <- _. rewrite R. subst c1.
  now destruct (is_empty (PortSMTP config)).
Qed.

(** The message is obtained whenever [prepare] succeeds, and conversely. *)
Lemma prepare_obtained config m :
  obtain_message config = Ok m ->
  exists config' msg, prepare config = Ok (config', msg).
Proof.
  intros E. unfold sendmail.prepare. rewrite E.
  destruct (resolve_sender _ m) as [c2 m2]. eauto.
Qed.

(** ** The recipient list of an envelope *)

(** C8: [NewEnvelope] returns an error or an envelope with at least one
    recipient; when the recipient list it resolved is empty, what it
    returns is the error "no recipients listed". *)
Theorem NewEnvelope_has_recipients config :
  match snd (NewEnvelope config) with
  | Err _ => True
  | Ok env => env_Recipients env <> [] /\ 0 < length (env_Recipients env)
  end /\
  (forall config' msg,
     prepare config = Ok (config', msg) ->
     resolve_recipients config' msg = Ok [] ->
     NewEnvelope config = (config', Err err_no_recipients)).
Proof.
  unfold sendmail.NewEnvelope. split.
  - destruct (prepare config) as [[c m]|e]; [|exact I].
    destruct (resolve_recipients c m) as [[|r l]|e]; cbn; try exact I.
    split; [discriminate | lia].
  - intros c m -> ->. reflexivity.
Qed.

(** C10: when [config.Recipients] is not empty and does not parse as an
    address list, the parse error is dropped, the resolved recipient list
    is empty, and [NewEnvelope] returns "no recipients listed", whatever
    the parse error was. *)
Theorem NewEnvelope_drops_parse_error config m e :
  Recipients config <> [] ->
  obtain_message config = Ok m ->
  ParseAddressList (Join (Recipients config) ",") = Err e ->
  snd (NewEnvelope config) = Err err_no_recipients /\
  forall config' msg,
    prepare config = Ok (config', msg) ->
    resolve_recipients config' msg = Ok [].
Proof.
  intros NE Hm Hp.
  assert (R : forall config' msg,
            prepare config = Ok (config', msg) ->
            resolve_recipients config' msg = Ok []).
  { intros c msg Hc. unfold sendmail.resolve_recipients.
    rewrite (prepare_Recipients _ _ _ Hc), Hp.
    destruct (Recipients config); [contradiction | reflexivity]. }
  split; [|exact R].
  destruct (prepare_obtained _ _ Hm) as (c & msg & Hc).
  unfold sendmail.NewEnvelope. rewrite Hc, (R _ _ Hc). reflexivity.
Qed.

End Envelope.

Section Send.

Variable Chan : Type.
Variable SendSmarthost : Envelope -> string -> string -> string -> Chan.
Variable SendLikeMTA : Envelope -> Chan.
Variable Unmarshal : string -> result relayConfig.

Local Abbreviation resolve_relay := (resolve_relay Unmarshal).
Local Abbreviation Send := (Send Chan SendSmarthost SendLikeMTA Unmarshal).

(** ** The relay settings *)

(** C2, as the code has it: when the configuration file is read and
    parsed, each relay setting is the value of the file when the file has
    one and the value of its environment variable when the file has none,
    and these are the settings [Send] goes by; when the file cannot be
    read or parsed, [Send] fails, whatever the environment holds. *)
Theorem Send_relay_settings os e :
  (forall data rc,
     ReadFile os "/etc/go-sendmail.yaml" = Ok data ->
     Unmarshal data = Ok rc ->
     exists r,
       resolve_relay os = Ok r /\
       (RelayHost rc <> "" -> RelayHost r = RelayHost rc) /\
       (RelayHost rc = "" -> RelayHost r = Getenv os "SENDMAIL_SMART_HOST") /\
       (RelayLogin rc <> "" -> RelayLogin r = RelayLogin rc) /\
       (RelayLogin rc = "" ->
          RelayLogin r = Getenv os "SENDMAIL_SMART_LOGIN") /\
       (RelayPassword rc <> "" -> RelayPassword r = RelayPassword rc) /\
       (RelayPassword rc = "" ->
          RelayPassword r = Getenv os "SENDMAIL_SMART_PASSWORD") /\
       Send os e =
         if is_empty (RelayHost r) then Ok (SendLikeMTA e)
         else Ok (SendSmarthost e (RelayHost r) (RelayLogin r)
                    (RelayPassword r))) /\
  (forall err,
     ReadFile os "/etc/go-sendmail.yaml" = Err err ->
     Send os e = Err ("Failed to read config file: " +:+ err)) /\
  (forall data err,
     ReadFile os "/etc/go-sendmail.yaml" = Ok data ->
     Unmarshal data = Err err ->
     Send os e = Err ("Error while parsing config file: " +:+ err)).
Proof.
  unfold sendmail.Send, sendmail.resolve_relay. split; [|split].
  - intros data rc -> ->. eexists. split; [reflexivity|].
    cbn [RelayHost RelayLogin RelayPassword].
    destruct (is_empty (RelayHost rc)) eqn:H;
      destruct (is_empty (RelayLogin rc)) eqn:L;
      destruct (is_empty (RelayPassword rc)) eqn:W;
      rewrite ?is_empty_true, ?is_empty_false in *;
      repeat split; intros; try reflexivity; try contradiction;
      try congruence;
      now destruct (is_empty _).
  - now intros err ->.
  - now intros data err -> ->.
Qed.

(** ** The two delivery paths *)

(** C9, as the code has it: when the configuration file is read and
    parsed, the relay host, login and password are each the value of the
    file when the file has one and the value of SENDMAIL_SMART_HOST,
    SENDMAIL_SMART_LOGIN, SENDMAIL_SMART_PASSWORD otherwise; [Send] then
    returns the result of [SendSmarthost] on the envelope with that host,
    login and password when the host is not empty, and the result of
    [SendLikeMTA] on the envelope when it is empty.  When the file cannot
    be read or parsed, [Send] returns an error and takes neither path,
    whatever the environment holds. *)
Theorem Send_selects_path os e :
  (forall data rc,
     ReadFile os "/etc/go-sendmail.yaml" = Ok data ->
     Unmarshal data = Ok rc ->
     let host :=
       if is_empty (RelayHost rc) then Getenv os "SENDMAIL_SMART_HOST"
       else RelayHost rc in
     let login :=
       if is_empty (RelayLogin rc) then Getenv os "SENDMAIL_SMART_LOGIN"
       else RelayLogin rc in
     let password :=
       if is_empty (RelayPassword rc)
       then Getenv os "SENDMAIL_SMART_PASSWORD"
       else RelayPassword rc in
     (host <> "" ->
        Send os e = Ok (SendSmarthost e host login password)) /\
     (host = "" -> Send os e = Ok (SendLikeMTA e))) /\
  (forall err,
     ReadFile os "/etc/go-sendmail.yaml" = Err err ->
     Send os e = Err ("Failed to read config file: " +:+ err)) /\
  (forall data err,
     ReadFile os "/etc/go-sendmail.yaml" = Ok data ->
     Unmarshal data = Err err ->
     Send os e = Err ("Error while parsing config file: " +:+ err)).
Proof.
  unfold sendmail.Send, sendmail.resolve_relay. split; [|split].
  - intros data rc -> ->. cbv zeta. cbn [RelayHost RelayLogin RelayPassword].
    split; intros H.
    + apply is_empty_false in H. now rewrite H.
    + apply is_empty_true in H. now rewrite H.
  - now intros err ->.
  - now intros data err -> ->.
Qed.

End Send.


Section Witnesses.
Import Examples.

Local Abbreviation new_envelope :=
  (NewEnvelope read_fails parse_one (fun s => s) (Ok "root")
     (Ok "client.example.org") dumb_message (map Addr)).
Local Abbreviation send := (Send Route Smarthost LikeMTA yaml_settings).

(** A recipient given on the command line ends up in the envelope. *)
Example envelope_of_recipient :
  match snd (new_envelope to_rcpt) with
  | Ok env =>
      env_Recipients env = ["rcpt@example.org"] /\ env_PortSMTP env = "25"
  | Err _ => False
  end.
Proof. cbn. auto. Qed.

Lemma NewEnvelope_has_recipients_witness :
  new_envelope unparsable =
  (set_PortSMTP "25" unparsable, Err err_no_recipients).
Proof.
  refine (proj2 (NewEnvelope_has_recipients read_fails parse_one
                   (fun s => s) (Ok "root") (Ok "client.example.org")
                   dumb_message (map Addr) unparsable)
            (set_PortSMTP "25" unparsable)
            (set_header "From" ["sender@example.org"]
               {| Header := {[ "To" := ["undisclosed"] ]};
                  msg_Body := "hello" |}) _ _);
    reflexivity.
Defined.

Lemma NewEnvelope_drops_parse_error_witness :
  snd (new_envelope unparsable) = Err err_no_recipients.
Proof.
  refine (proj1 (NewEnvelope_drops_parse_error read_fails parse_one
                   (fun s => s) (Ok "root") (Ok "client.example.org")
                   dumb_message (map Addr) unparsable
                   {| Header := {[ "To" := ["undisclosed"] ]};
                      msg_Body := "hello" |}
                   "mail: missing '@' or angle-addr" _ _ _));
    [discriminate | reflexivity | reflexivity].
Defined.

(** C2, as stated, fails: with no configuration file at all the file
    supplies no relay host and SENDMAIL_SMART_HOST is set, yet [Send]
    does not consult the environment: it fails on reading the file. *)
Lemma Send_fails_without_config_file :
  (forall data, ReadFile env_only "/etc/go-sendmail.yaml" <> Ok data) /\
  Getenv env_only "SENDMAIL_SMART_HOST" = "env.example.org:25" /\
  send env_only an_envelope =
    Err ("Failed to read config file: " +:+ no_such_file) /\
  send env_only an_envelope <>
    Ok (Smarthost an_envelope "env.example.org:25" "envuser" "envpass").
Proof.
  split; [discriminate|]. split; [reflexivity|].
  split; [reflexivity | discriminate].
Qed.

Lemma Send_relay_settings_witness :
  (exists r,
     resolve_relay yaml_settings file_and_env = Ok r /\
     RelayHost r = "file.example.org:25" /\
     RelayLogin r = "envuser" /\
     RelayPassword r = "envpass") /\
  send env_only an_envelope =
    Err ("Failed to read config file: " +:+ no_such_file) /\
  send garbled an_envelope =
    Err "Error while parsing config file: yaml: unmarshal errors".
Proof.
  destruct (Send_relay_settings Route Smarthost LikeMTA yaml_settings
              file_and_env an_envelope) as (A & _ & _).
  destruct (Send_relay_settings Route Smarthost LikeMTA yaml_settings
              env_only an_envelope) as (_ & B & _).
  destruct (Send_relay_settings Route Smarthost LikeMTA yaml_settings
              garbled an_envelope) as (_ & _ & C).
  split; [|split].
  - destruct (A file_host
                {| RelayHost := "file.example.org:25"; RelayLogin := "";
                   RelayPassword := "" |} eq_refl eq_refl)
      as (r & Hr & Hh & _ & _ & Hl & _ & Hp & _).
    exists r. split; [exact Hr|]. split; [|split].
    + rewrite Hh; [reflexivity | discriminate].
    + rewrite Hl; reflexivity.
    + rewrite Hp; reflexivity.
  - exact (B no_such_file eq_refl).
  - exact (C "{" "yaml: unmarshal errors" eq_refl eq_refl).
Defined.

(** C9, as stated, fails: here the environment names a relay host and
    there is no configuration file; [Send] returns neither the smart-host
    path nor the direct path, but the error of reading the file. *)
Lemma Send_env_relay_selects_no_path :
  Getenv env_only "SENDMAIL_SMART_HOST" = "env.example.org:25" /\
  (forall data, ReadFile env_only "/etc/go-sendmail.yaml" <> Ok data) /\
  (forall host login password,
     send env_only an_envelope
     <> Ok (Smarthost an_envelope host login password)) /\
  send env_only an_envelope <> Ok (LikeMTA an_envelope).
Proof.
  split; [reflexivity|]. split; [discriminate|].
  split; [intros host login password|]; discriminate.
Qed.

Lemma Send_selects_path_witness :
  send file_and_env an_envelope =
    Ok (Smarthost an_envelope "file.example.org:25" "envuser" "envpass") /\
  send no_relay an_envelope = Ok (LikeMTA an_envelope) /\
  send env_only an_envelope =
    Err ("Failed to read config file: " +:+ no_such_file) /\
  send garbled an_envelope =
    Err "Error while parsing config file: yaml: unmarshal errors".
Proof.
  split; [|split; [|split]].
  - refine (proj1 (proj1 (Send_selects_path Route Smarthost LikeMTA
                            yaml_settings file_and_env an_envelope)
                     file_host
                     {| RelayHost := "file.example.org:25";
                        RelayLogin := ""; RelayPassword := "" |}
                     eq_refl eq_refl) _).
    discriminate.
  - exact (proj2 (proj1 (Send_selects_path Route Smarthost LikeMTA
                           yaml_settings no_relay an_envelope)
                    ""
                    {| RelayHost := ""; RelayLogin := "";
                       RelayPassword := "" |} eq_refl eq_refl) eq_refl).
  - exact (proj1 (proj2 (Send_selects_path Route Smarthost LikeMTA
                           yaml_settings env_only an_envelope))
             no_such_file eq_refl).
  - exact (proj2 (proj2 (Send_selects_path Route Smarthost LikeMTA
                           yaml_settings garbled an_envelope))
             "{" "yaml: unmarshal errors" eq_refl eq_refl).
Defined.

End Witnesses.

End sendmail_proofs.

(** * Further properties of the SMTP transaction client *)
Module nvsmtp_more.
Import nvsmtp nvsmtp_proofs.

Section Session.

Context {Auth : Type}.
Variable P : @Peer Auth.
Variable hostname : string.
Variable SplitHostPort : string -> string.

Local Abbreviation session := (session P hostname SplitHostPort).
Local Abbreviation plan := (plan P hostname SplitHostPort).
Local Abbreviation attempted := (attempted P hostname SplitHostPort).
Local Abbreviation handshake := (handshake P hostname SplitHostPort).
Local Abbreviation tls_offered := (tls_offered P hostname).
Local Abbreviation auth_ready := (auth_ready P hostname SplitHostPort).
Local Abbreviation in_order := (in_order P hostname SplitHostPort).
Local Abbreviation tls_config := (tls_config SplitHostPort).

(** Where an event sits in a log that starts with accepted steps. *)
Lemma map_ok_split (L : list (@Call Auth))
    (T pre post : list (@Call Auth * option error)) (c : Call)
    (r : option error) :
  map ok L ++ T = pre ++ (c, r) :: post ->
  (exists d1 d2, L = d1 ++ c :: d2 /\ pre = map ok d1 /\ r = None) \/
  (exists t1, pre = map ok L ++ t1 /\ T = t1 ++ (c, r) :: post).
Proof.
  revert pre. induction L as [|x L IH]; intros pre E.
  - right. now exists pre.
  - destruct pre as [|p pre]; cbn [map app] in E.
    + left. inversion E; subst. now exists [], L.
    + inversion E as [[Ep E']]. apply IH in E' as
        [(d1 & d2 & -> & -> & ->)|(t1 & -> & ->)].
      * left. now exists (x :: d1), d2.
      * right. now exists t1.
Qed.

(** Every call of the log other than the close is a step of the plan, and
    the log before it is exactly the steps before it, all accepted. *)
Lemma performed_at addr a from to msg st pre (c : Call) r post :
  in_order addr a from to msg st ->
  snd st = pre ++ (c, r) :: post ->
  c <> Close ->
  exists done rest,
    attempted addr a from to msg = done ++ c :: rest /\ pre = map ok done.
Proof.
  intros [rc R|e|done c' rest e rc E|y rc -> R]; cbn [snd]; intros H NC.
  - apply map_ok_split in H as [(d1 & d2 & E & -> & _)|(t1 & _ & T)].
    + exists d1, d2. unfold nvsmtp.attempted. now rewrite R.
    + destruct t1 as [|t [|t' t1]]; inversion T; congruence.
  - destruct pre as [|p [|p' pre]]; inversion H; subst.
    exists [], (tl (attempted addr a from to msg)).
    split; [apply attempted_head | reflexivity].
  - apply map_ok_split in H as [(d1 & d2 & E' & -> & _)|(t1 & -> & T)].
    + exists d1, (d2 ++ c' :: rest). rewrite E, E', <- app_assoc.
      now split.
    + destruct t1 as [|t [|t' t1]]; inversion T; subst.
      * exists (Dial addr :: done), rest. now rewrite app_nil_r.
      * congruence.
      * now destruct t1.
  - apply map_ok_split in H as [(d1 & d2 & E & -> & _)|(t1 & _ & T)].
    + exists d1, d2. unfold nvsmtp.attempted, nvsmtp.auth_ready.
      now rewrite R.
    + destruct t1 as [|t [|t' t1]]; inversion T; congruence.
Qed.

(** X1: when [SendMail] returns no error, the addresses were valid and
    the log is the whole plan, every step accepted, followed by the
    close: each recipient of the list was declared, in order, the message
    was written and QUIT was accepted. *)
Theorem SendMail_success_is_complete addr a from to msg :
  fst (session addr a from to msg) = Ok tt ->
  clean from to /\
  auth_ready addr a = true /\
  exists rc,
    snd (session addr a from to msg) =
    map ok (plan addr a from to msg) ++ [(Close, rc)].
Proof.
  intros H.
  destruct (clean_or_dirty hostname SplitHostPort from to) as [Hc|Hd];
    [|rewrite (session_dirty _ _ _ _ _ _ _ _ Hd) in H; discriminate H].
  split; [exact Hc|].
  destruct (session_in_order P hostname SplitHostPort addr a from to msg Hc)
    as [rc R|e|done c rest e rc E|y rc -> R]; cbn [fst snd] in *;
    try discriminate H.
  split; [exact R | now exists rc].
Qed.

(** X2: an error returned by [SendMail] is the validation error, the
    capability error, or the error that one of the calls of this
    session's plan returned, a call other than the deferred close: every
    call before it was accepted, and the error is the result that call
    had at that point of the session. *)
Theorem SendMail_error_origin addr a from to msg e :
  fst (session addr a from to msg) = Err e ->
  e = err_line \/
  e = err_no_auth \/
  exists done c post,
    In c (plan addr a from to msg) /\
    c <> Close /\
    snd (session addr a from to msg) = map ok done ++ (c, Some e) :: post /\
    reply P (map ok done) c = Some e.
Proof.
  intros H.
  destruct (clean_or_dirty hostname SplitHostPort from to) as [Hc|Hd];
    [|rewrite (session_dirty _ _ _ _ _ _ _ _ Hd) in H; cbn [fst] in H;
      left; congruence].
  pose proof (session_in_order P hostname SplitHostPort addr a from to msg Hc)
    as O.
  pose proof (session_answered P hostname SplitHostPort addr a from to msg)
    as A.
  assert (Q : forall c, In c (attempted addr a from to msg) ->
              In c (plan addr a from to msg) /\ c <> Close).
  { intros c I. apply in_attempted in I. split; [exact I|].
    intros ->. apply in_plan in I.
    destruct I as [I|[I|[[_ I]|[(x & _ & I)|[I|[(r & _ & I)|[I|[I|[I|I]]]]]]]]];
      discriminate I. }
  destruct O as [rc R|e'|done c rest e' rc E|y rc -> R]; cbn [fst snd] in *.
  - discriminate H.
  - injection H as ->. do 2 right. exists [], (Dial addr), [].
    destruct (Q (Dial addr)) as [Q1 Q2];
      [rewrite attempted_head; now left|].
    repeat split; [exact Q1 | exact Q2 |].
    exact (A [] (Dial addr) (Some e) [] eq_refl).
  - injection H as ->. do 2 right.
    exists (Dial addr :: done), c, [(Close, rc)].
    destruct (Q c) as [Q1 Q2]; [rewrite E; apply in_elt|].
    repeat split; [exact Q1 | exact Q2 |].
    exact (A (map ok (Dial addr :: done)) c (Some e) [(Close, rc)] eq_refl).
  - right. left. congruence.
Qed.

(** X3: without credentials [SendMail] never sends AUTH, whether or not
    the server advertises it. *)
Theorem SendMail_no_credentials_no_auth addr from to msg x :
  ~ In (DoAuth x) (calls (snd (session addr None from to msg))).
Proof.
  intros H. apply session_calls in H as [H|H]; [|discriminate H].
  apply in_plan in H.
  destruct H as [H|[H|[[_ H]|[(y & Hy & H)|[H|[(r & _ & H)|[H|[H|[H|H]]]]]]]]];
    discriminate.
Qed.

(** X4: when the server offers STARTTLS, every AUTH, MAIL, RCPT and DATA
    of the log comes after the upgrade: the log before it starts with the
    connect, the greeting and the StartTLS call, all three accepted.
    Neither the credentials nor the envelope go out in the clear. *)
Theorem SendMail_upgrade_before_secrets addr a from to msg pre c r post :
  tls_offered addr = true ->
  snd (session addr a from to msg) = pre ++ (c, r) :: post ->
  auth_or_envelope c = true ->
  exists between,
    pre = [(Dial addr, None); (Hello hostname, None);
           (StartTLS (tls_config addr), None)] ++ between.
Proof.
  intros T H K.
  destruct (clean_or_dirty hostname SplitHostPort from to) as [Hc|Hd];
    [|rewrite (session_dirty _ _ _ _ _ _ _ _ Hd) in H;
      now destruct pre].
  pose proof (session_in_order P hostname SplitHostPort addr a from to msg Hc)
    as O.
  destruct (performed_at _ _ _ _ _ _ _ c _ _ O H) as (d1 & d2 & E & ->);
    [intros ->; discriminate K|].
  destruct (attempted_upgrade P hostname SplitHostPort addr a from to msg T)
    as [rest U].
  rewrite U in E.
  destruct d1 as [|y1 [|y2 [|y3 d1]]]; cbn [app] in E; inversion E; subst;
    try discriminate K.
  now exists (map ok d1).
Qed.

(** X5: a QUIT that fails makes [SendMail] return its error although the
    message went through: every step before it, the written message and
    the close of the data stream included, was accepted. *)
Theorem SendMail_quit_failure_after_delivery addr a from to msg e :
  In (Quit, Some e) (snd (session addr a from to msg)) ->
  fst (session addr a from to msg) = Err e /\
  exists rc,
    snd (session addr a from to msg) =
    map ok (handshake addr ++ authenticate a ++ [Mail from] ++
            map Rcpt to ++ [Data; Write msg; WriterClose]) ++
    [(Quit, Some e); (Close, rc)].
Proof.
  intros H.
  destruct (clean_or_dirty hostname SplitHostPort from to) as [Hc|Hd];
    [|rewrite (session_dirty _ _ _ _ _ _ _ _ Hd) in H; destruct H].
  pose proof (session_in_order P hostname SplitHostPort addr a from to msg Hc)
    as O.
  destruct (in_order_rejected _ _ _ _ _ _ _ _ _ Quit e O) as
    (R & done & rest & rc & [[E L]|(_ & E & _)]);
    [discriminate | exact H | | discriminate E].
  split; [exact R|]. exists rc. rewrite L. clear O H R L.
  assert (Hr : auth_ready addr a = true).
  { destruct (auth_ready addr a) eqn:Hr; [reflexivity|].
    unfold nvsmtp.attempted in E. rewrite Hr in E.
    assert (I : In Quit (handshake addr)) by (rewrite E; apply in_elt).
    apply in_handshake in I as [I|[I|[_ I]]]; discriminate I. }
  unfold nvsmtp.attempted in E. rewrite Hr in E.
  unfold nvsmtp.plan, transfer in E.
  replace (handshake addr ++ authenticate a ++
           [Mail from] ++ map Rcpt to ++ [Data; Write msg; WriterClose; Quit])
    with ((handshake addr ++ authenticate a ++ [Mail from] ++
           map Rcpt to ++ [Data; Write msg; WriterClose]) ++ [Quit] ++ [])
    in E by (rewrite <- !app_assoc; reflexivity).
  apply (split_in_middle
           (fun c => match c with Quit => true | _ => false end))
    in E as (m1 & m2 & Em & -> & _); [| | reflexivity | reflexivity].
  - destruct m1 as [|c1 m1]; [now rewrite app_nil_r|].
    inversion Em as [[E1 E2]]. now destruct m1.
  - rewrite !forallb_app. cbn [forallb negb andb].
    assert (R : forall l : list string,
              forallb (fun c : @Call Auth =>
                         negb match c with Quit => true | _ => false end)
                (map Rcpt l) = true)
      by (intros l; induction l; auto).
    rewrite R. unfold nvsmtp.handshake, nvsmtp.upgrade.
    now destruct (tls_offered addr), a.
Qed.

(** X6: what [SendMail] writes is the message it was given, and the
    write comes after the envelope: the log before it is the handshake,
    the authentication when credentials were given, MAIL, one RCPT for
    every recipient of the list in order and DATA, all of them accepted. *)
Theorem SendMail_writes_after_envelope addr a from to msg pre m r post :
  snd (session addr a from to msg) = pre ++ (Write m, r) :: post ->
  m = msg /\
  pre = map ok (handshake addr ++ authenticate a ++ [Mail from] ++
                map Rcpt to ++ [Data]).
Proof.
  intros H.
  destruct (clean_or_dirty hostname SplitHostPort from to) as [Hc|Hd];
    [|rewrite (session_dirty _ _ _ _ _ _ _ _ Hd) in H; now destruct pre].
  pose proof (session_in_order P hostname SplitHostPort addr a from to msg Hc)
    as O.
  destruct (performed_at _ _ _ _ _ _ _ (Write m) _ _ O H)
    as (d1 & d2 & E & ->); [discriminate|].
  assert (Hr : auth_ready addr a = true).
  { destruct (auth_ready addr a) eqn:Hr; [reflexivity|].
    unfold nvsmtp.attempted in E. rewrite Hr in E.
    assert (I : In (Write m) (handshake addr)) by (rewrite E; apply in_elt).
    apply in_handshake in I as [I|[I|[_ I]]]; discriminate I. }
  unfold nvsmtp.attempted in E. rewrite Hr in E.
  unfold nvsmtp.plan, transfer in E.
  replace (handshake addr ++ authenticate a ++
           [Mail from] ++ map Rcpt to ++ [Data; Write msg; WriterClose; Quit])
    with ((handshake addr ++ authenticate a ++ [Mail from] ++
           map Rcpt to ++ [Data]) ++ [Write msg] ++ [WriterClose; Quit])
    in E by (rewrite <- !app_assoc; reflexivity).
  apply (split_in_middle
           (fun c => match c with Write _ => true | _ => false end))
    in E as (m1 & m2 & Em & -> & _); [| | reflexivity | reflexivity].
  - destruct m1 as [|c1 m1];
      [|inversion Em as [[E1 E2]]; now destruct m1].
    injection Em as ->. now rewrite app_nil_r.
  - rewrite !forallb_app. cbn [forallb negb andb].
    assert (R : forall l : list string,
              forallb (fun c : @Call Auth =>
                         negb match c with Write _ => true | _ => false end)
                (map Rcpt l) = true)
      by (intros l; induction l; auto).
    rewrite R. unfold nvsmtp.handshake, nvsmtp.upgrade.
    now destruct (tls_offered addr), a.
Qed.

End Session.

Section TwoPeers.

Context {Auth : Type}.
Variables P P' : @Peer Auth.
Variable hostname : string.
Variable SplitHostPort : string -> string.

(** The two servers differ at most in what they answer to the close of
    the connection. *)
Hypothesis same_reply :
  forall h c, c <> Close -> reply P h c = reply P' h c.
Hypothesis same_extension :
  forall h ext, extension P h ext = extension P' h ext.

Lemma perform_same (l : list Call) (h : list (Call * option error)) :
  forallb on_connection l = true ->
  perform P l h = perform P' l h.
Proof.
  revert h. induction l as [|c l IH]; intros h H; [reflexivity|].
  cbn [forallb] in H. apply andb_true_iff in H as [Hc Hl].
  cbn [perform]. rewrite <- same_reply by (intros ->; discriminate Hc).
  destruct (reply P h c); [reflexivity | now apply IH].
Qed.

Lemma attempted_same addr a from to msg :
  attempted P hostname SplitHostPort addr a from to msg =
  attempted P' hostname SplitHostPort addr a from to msg /\
  auth_ready P hostname SplitHostPort addr a =
  auth_ready P' hostname SplitHostPort addr a.
Proof.
  unfold attempted, auth_ready, plan, auth_offered, handshake, upgrade,
    tls_offered.
  now rewrite !same_extension.
Qed.

(** X7: the error of the deferred close is dropped: two servers that
    differ only in their answer to the close get the same result and the
    same sequence of calls from [SendMail]. *)
Theorem SendMail_ignores_close_error addr a from to msg :
  fst (session P hostname SplitHostPort addr a from to msg) =
  fst (session P' hostname SplitHostPort addr a from to msg) /\
  calls (snd (session P hostname SplitHostPort addr a from to msg)) =
  calls (snd (session P' hostname SplitHostPort addr a from to msg)).
Proof.
  destruct (clean_or_dirty hostname SplitHostPort from to) as [Hc|Hd];
    [|now rewrite !(session_dirty _ _ _ _ _ _ _ _ Hd)].
  rewrite !(session_clean _ _ _ _ _ _ _ _ Hc).
  destruct (attempted_same addr a from to msg) as [<- <-].
  rewrite <- same_reply by discriminate.
  destruct (reply P [] (Dial addr)); [auto|].
  rewrite <- perform_same by apply on_connection_attempted.
  destruct (perform P _ _) as [r h]. cbn [fst snd]. split; [reflexivity|].
  now rewrite !calls_app.
Qed.

End TwoPeers.

Section Witnesses.
Import Examples Samples.

Local Abbreviation run P := (session P "client.example.org" host_of).

Lemma SendMail_success_is_complete_witness :
  exists rc,
    snd (run full_peer "mx.example.org:25" (Some credentials)
           "sender@example.org" ["a@example.org"; "b@example.org"] "hi")
    = [(Dial "mx.example.org:25", None); (Hello "client.example.org", None);
       (StartTLS {| ServerName := "mx.example.org";
                    InsecureSkipVerify := true |}, None);
       (DoAuth credentials, None); (Mail "sender@example.org", None);
       (Rcpt "a@example.org", None); (Rcpt "b@example.org", None);
       (Data, None); (Write "hi", None); (WriterClose, None);
       (Quit, None); (Close, rc)].
Proof.
  destruct (SendMail_success_is_complete full_peer "client.example.org"
              host_of "mx.example.org:25" (Some credentials)
              "sender@example.org" ["a@example.org"; "b@example.org"] "hi"
              eq_refl) as (_ & _ & rc & E).
  exists rc. exact E.
Defined.

Lemma SendMail_error_origin_witness :
  no_such_user = err_line \/ no_such_user = err_no_auth \/
  exists done c post,
    In c (plan picky "client.example.org" host_of "mx.example.org:25" None
            "sender@example.org" ["nobody@example.org"] "hi") /\
    c <> Close /\
    snd (run picky "mx.example.org:25" None "sender@example.org"
           ["nobody@example.org"] "hi")
    = map ok done ++ (c, Some no_such_user) :: post /\
    reply picky (map ok done) c = Some no_such_user.
Proof.
  exact (SendMail_error_origin picky "client.example.org" host_of
           "mx.example.org:25" None "sender@example.org"
           ["nobody@example.org"] "hi" no_such_user eq_refl).
Defined.

Lemma SendMail_upgrade_before_secrets_witness :
  tls_offered full_peer "client.example.org" "mx.example.org:25" = true /\
  exists between,
    [(Dial "mx.example.org:25", None); (Hello "client.example.org", None);
     (StartTLS {| ServerName := "mx.example.org";
                  InsecureSkipVerify := true |}, None);
     (DoAuth credentials, @None error)]
    = [(Dial "mx.example.org:25", None); (Hello "client.example.org", None);
       (StartTLS (tls_config host_of "mx.example.org:25"), None)]
      ++ between.
Proof.
  split; [reflexivity|].
  exact (SendMail_upgrade_before_secrets full_peer "client.example.org"
           host_of "mx.example.org:25" (Some credentials)
           "sender@example.org" ["a@example.org"] "hi"
           [(Dial "mx.example.org:25", None);
            (Hello "client.example.org", None);
            (StartTLS {| ServerName := "mx.example.org";
                         InsecureSkipVerify := true |}, None);
            (DoAuth credentials, None)]
           (Mail "sender@example.org") None
           [(Rcpt "a@example.org", None); (Data, None); (Write "hi", None);
            (WriterClose, None); (Quit, None); (Close, None)]
           eq_refl eq_refl eq_refl).
Defined.

Lemma SendMail_quit_failure_after_delivery_witness :
  fst (run quit_failing "mx.example.org:25" None "sender@example.org"
         ["a@example.org"] "hi")
  = Err "421 4.4.2 connection dropped" /\
  In (WriterClose, None)
    (snd (run quit_failing "mx.example.org:25" None "sender@example.org"
            ["a@example.org"] "hi")).
Proof.
  destruct (SendMail_quit_failure_after_delivery quit_failing
              "client.example.org" host_of "mx.example.org:25" None
              "sender@example.org" ["a@example.org"] "hi"
              "421 4.4.2 connection dropped") as (R & rc & L).
  - do 7 right; left; reflexivity.
  - split; [exact R|]. rewrite L. do 6 right; left; reflexivity.
Defined.

Lemma SendMail_writes_after_envelope_witness :
  "hi" = "hi" /\
  [(Dial "mx.example.org:25", None); (Hello "client.example.org", None);
   (Mail "sender@example.org", None); (Rcpt "a@example.org", None);
   (Rcpt "b@example.org", None); (@Data PlainAuth, @None error)]
  = map ok (handshake accepting "client.example.org" host_of
              "mx.example.org:25" ++ authenticate None ++
            [Mail "sender@example.org"] ++
            map Rcpt ["a@example.org"; "b@example.org"] ++ [Data]).
Proof.
  exact (SendMail_writes_after_envelope accepting "client.example.org"
           host_of "mx.example.org:25" None "sender@example.org"
           ["a@example.org"; "b@example.org"] "hi"
           [(Dial "mx.example.org:25", None);
            (Hello "client.example.org", None);
            (Mail "sender@example.org", None);
            (Rcpt "a@example.org", None); (Rcpt "b@example.org", None);
            (Data, None)]
           "hi" None
           [(WriterClose, None); (Quit, None); (Close, None)]
           eq_refl).
Defined.

Lemma SendMail_ignores_close_error_witness :
  fst (run accepting "mx.example.org:25" None "sender@example.org"
         ["a@example.org"] "hi")
  = fst (run close_failing "mx.example.org:25" None "sender@example.org"
           ["a@example.org"] "hi").
Proof.
  refine (proj1 (SendMail_ignores_close_error accepting close_failing
                   "client.example.org" host_of _ _ "mx.example.org:25" None
                   "sender@example.org" ["a@example.org"] "hi")).
  - intros h c NC. destruct c; try reflexivity. contradiction.
  - reflexivity.
Defined.

End Witnesses.

End nvsmtp_more.

(** * Further properties of envelope construction *)
Module sendmail_more.
Import sendmail message sendmail_proofs.

Lemma set_Sender_same (c : Config) : set_Sender (Sender c) c = c.
Proof. now destruct c. Qed.

Section Envelope.

Variable ReadMessage : string -> result Message.
Variable ParseAddressList : string -> result (list Address).
Variable EncodeToString : string -> string.
Variable user_Current : result string.
Variable os_Hostname : result string.
Variable GetDumbMessage : string -> list string -> string -> result Message.
Variable AddressListToSlice : list Address -> list string.

Local Abbreviation obtain_message :=
  (obtain_message ReadMessage GetDumbMessage).
Local Abbreviation resolve_sender :=
  (resolve_sender ParseAddressList user_Current os_Hostname).
Local Abbreviation resolve_recipients :=
  (resolve_recipients ParseAddressList AddressListToSlice).
Local Abbreviation prepare :=
  (prepare ReadMessage ParseAddressList EncodeToString user_Current
     os_Hostname GetDumbMessage).
Local Abbreviation NewEnvelope :=
  (NewEnvelope ReadMessage ParseAddressList EncodeToString user_Current
     os_Hostname GetDumbMessage AddressListToSlice).
Local Abbreviation AddressList := (Header_AddressList ParseAddressList).
Local Abbreviation GetSender := (GetSender ParseAddressList).

(** The port [NewEnvelope] leaves in [config]. *)
Local Abbreviation with_port config :=
  (if is_empty (PortSMTP config) then set_PortSMTP "25" config else config).

(** What resolving the sender does: [config] changes in its sender at
    most, the message in its "From" header at most. *)
Lemma resolve_sender_inv config msg :
  exists s,
    fst (resolve_sender config msg) = set_Sender s config /\
    (snd (resolve_sender config msg) = msg \/
     snd (resolve_sender config msg) = set_header "From" [s] msg).
Proof.
  unfold sendmail.resolve_sender.
  destruct (is_empty (Sender config)) eqn:S0; cbn [negb].
  - destruct (Header_AddressList ParseAddressList (Header msg) "From")
      as [[|a l]|e].
    + rewrite S0. destruct user_Current as [u|]; [destruct os_Hostname as [h|]|].
      * exists (u +:+ "@" +:+ h). cbn [fst snd]. split; [now destruct config|].
        now right.
      * exists (Sender config). rewrite set_Sender_same. auto.
      * exists (Sender config). rewrite set_Sender_same. auto.
    + cbn [Sender set_Sender].
      destruct (is_empty (Addr a)) eqn:S1.
      * destruct user_Current as [u|]; [destruct os_Hostname as [h|]|].
        -- exists (u +:+ "@" +:+ h). cbn [fst snd]. split; [reflexivity|].
           now right.
        -- exists (Addr a). auto.
        -- exists (Addr a). auto.
      * exists (Addr a). auto.
    + rewrite S0. destruct user_Current as [u|]; [destruct os_Hostname as [h|]|].
      * exists (u +:+ "@" +:+ h). cbn [fst snd]. split; [now destruct config|].
        now right.
      * exists (Sender config). rewrite set_Sender_same. auto.
      * exists (Sender config). rewrite set_Sender_same. auto.
  - exists (Sender config). rewrite set_Sender_same. cbn [fst snd]. auto.
Qed.

Lemma lookup_set_header key key' values m :
  key <> key' ->
  Header (set_header key values m) !! key' = Header m !! key'.
Proof. intros N. cbn [set_header Header]. now rewrite lookup_insert_ne. Qed.

(** What [prepare] returns, in terms of the message that was obtained. *)
Lemma prepare_inv config config' msg' :
  prepare config = Ok (config', msg') ->
  exists m m2 s,
    obtain_message config = Ok m /\
    resolve_sender (with_port config) m = (config', m2) /\
    config' = set_Sender s (with_port config) /\
    (m2 = m \/ m2 = set_header "From" [s] m) /\
    msg_Body msg' = msg_Body m /\
    (forall key, key <> "Subject" -> Header msg' !! key = Header m2 !! key) /\
    (forall key, key <> "From" -> key <> "Subject" ->
       Header msg' !! key = Header m !! key).
Proof.
  unfold sendmail.prepare. cbv zeta.
  destruct (obtain_message config) as [m|e]; [|discriminate].
  destruct (resolve_sender_inv (with_port config) m) as (s & Hc & Hm).
  destruct (resolve_sender (with_port config) m) as [c2 m2] eqn:R.
  cbn [fst snd] in *. intros E.
  assert (B : msg_Body m2 = msg_Body m) by (destruct Hm as [->| ->]; reflexivity).
  assert (K : forall key, key <> "From" -> Header m2 !! key = Header m !! key).
  { intros key N. destruct Hm as [->| ->]; [reflexivity|].
    apply lookup_set_header. congruence. }
  exists m, m2, s.
  destruct (negb (is_empty (Subject c2))); injection E as <- <-;
    (split; [reflexivity|]); (split; [exact R|]);
    (split; [exact Hc|]); (split; [exact Hm|]); (split; [exact B|]); split.
  - intros key N. now rewrite lookup_set_header by congruence.
  - intros key N1 N2. rewrite lookup_set_header by congruence. now apply K.
  - reflexivity.
  - intros key N1 _. now apply K.
Qed.

(** [NewEnvelope] in terms of [prepare] when it succeeds. *)
Lemma NewEnvelope_inv config config' env :
  NewEnvelope config = (config', Ok env) ->
  exists msg',
    prepare config = Ok (config', msg') /\
    env_Message env = msg' /\
    resolve_recipients config' msg' = Ok (env_Recipients env) /\
    env_PortSMTP env = PortSMTP config'.
Proof.
  unfold sendmail.NewEnvelope.
  destruct (prepare config) as [[c m]|e]; [|discriminate].
  destruct (resolve_recipients c m) as [rs|e] eqn:R; [|discriminate].
  destruct (length rs =? 0)%nat; [discriminate|].
  intros E. injection E as <- <-. now exists m.
Qed.

Lemma NewEnvelope_fst config :
  fst (NewEnvelope config) =
  match prepare config with
  | Ok (config', _) => config'
  | Err _ => config
  end.
Proof.
  unfold sendmail.NewEnvelope.
  destruct (prepare config) as [[c m]|e]; [|reflexivity].
  destruct (resolve_recipients c m) as [rs|e]; [|reflexivity].
  now destruct (length rs =? 0)%nat.
Qed.

(** X8: what [NewEnvelope] writes through the [config] pointer: the port,
    which becomes "25" when it was empty, and the sender, nothing else;
    the envelope carries that port.  The first part holds for failed
    calls too. *)
Theorem NewEnvelope_config config :
  let config' := fst (NewEnvelope config) in
  Recipients config' = Recipients config /\
  Subject config' = Subject config /\
  Body config' = Body config /\
  (PortSMTP config' = PortSMTP config \/
   (PortSMTP config = "" /\ PortSMTP config' = "25")) /\
  forall env,
    snd (NewEnvelope config) = Ok env ->
    env_PortSMTP env =
    if is_empty (PortSMTP config) then "25" else PortSMTP config.
Proof.
  cbv zeta. rewrite NewEnvelope_fst.
  destruct (prepare config) as [[c m]|e] eqn:Hp.
  - pose proof Hp as Hp'.
    apply prepare_inv in Hp' as (m0 & m2 & s & _ & _ & -> & _).
    split; [|split; [|split; [|split]]].
    + now destruct (is_empty (PortSMTP config)).
    + now destruct (is_empty (PortSMTP config)).
    + now destruct (is_empty (PortSMTP config)).
    + destruct (is_empty (PortSMTP config)) eqn:E; [right|now left].
      split; [now apply is_empty_true | reflexivity].
    + intros env H.
      destruct (NewEnvelope config) as [c' r] eqn:N. cbn [snd] in H. subst r.
      apply NewEnvelope_inv in N as (msg' & Hp2 & _ & _ & ->).
      rewrite Hp in Hp2. injection Hp2 as <- _.
      now destruct (is_empty (PortSMTP config)).
  - repeat split; auto.
    intros env H. unfold sendmail.NewEnvelope in H. rewrite Hp in H.
    discriminate H.
Qed.

(** X9: the envelope keeps the body of the message that was read and
    all its headers but "From" and "Subject". *)
Theorem NewEnvelope_keeps_message config config' env :
  NewEnvelope config = (config', Ok env) ->
  exists m,
    obtain_message config = Ok m /\
    msg_Body (env_Message env) = msg_Body m /\
    forall key, key <> "From" -> key <> "Subject" ->
      Header (env_Message env) !! key = Header m !! key.
Proof.
  intros N. apply NewEnvelope_inv in N as (msg' & Hp & <- & _).
  apply prepare_inv in Hp as (m & m2 & s & Ho & _ & _ & _ & B & _ & K).
  now exists m.
Qed.

Lemma AddressList_lookup (h h' : gmap string (list string)) key :
  h !! key = h' !! key -> AddressList h key = AddressList h' key.
Proof.
  intros E. unfold Header_AddressList, Header_Get. now rewrite E.
Qed.

Lemma AddressList_singleton (h : gmap string (list string)) key v :
  h !! key = Some [v] -> v <> "" -> AddressList h key = ParseAddressList v.
Proof.
  intros E N. unfold Header_AddressList, Header_Get. rewrite E.
  apply is_empty_false in N. now rewrite N.
Qed.

(** X10: a sender given in [config] becomes the only "From" header of the
    envelope, whatever the message had, and [GetSender] is then the first
    address that sender parses to, or empty when it does not parse. *)
Theorem NewEnvelope_explicit_sender config config' env :
  Sender config <> "" ->
  NewEnvelope config = (config', Ok env) ->
  Sender config' = Sender config /\
  Header (env_Message env) !! "From" = Some [Sender config] /\
  GetSender env =
    match ParseAddressList (Sender config) with
    | Ok (a :: _) => Addr a
    | _ => ""
    end.
Proof.
  intros NS N. apply NewEnvelope_inv in N as (msg' & Hp & <- & _).
  apply prepare_inv in Hp as (m & m2 & s & _ & R & _ & _ & _ & K & _).
  assert (S1 : Sender (with_port config) = Sender config)
    by now destruct (is_empty (PortSMTP config)).
  unfold sendmail.resolve_sender in R. rewrite S1 in R.
  apply is_empty_false in NS. rewrite NS in R. cbn [negb] in R.
  injection R as <- <-. apply is_empty_false in NS.
  assert (F : Header (env_Message env) !! "From" = Some [Sender config]).
  { rewrite K by discriminate. cbn [set_header Header].
    now rewrite lookup_insert_eq. }
  split; [exact S1|]. split; [exact F|].
  unfold message.GetSender. now rewrite (AddressList_singleton _ _ _ F NS).
Qed.

Lemma obtained_prepare config m :
  obtain_message config = Ok m ->
  exists config' msg',
    prepare config = Ok (config', msg') /\
    Recipients config' = Recipients config.
Proof.
  intros E.
  destruct (prepare_obtained ReadMessage ParseAddressList EncodeToString
              user_Current os_Hostname GetDumbMessage config m E)
    as (c & msg & Hp).
  exists c, msg. split; [exact Hp|].
  exact (prepare_Recipients _ _ _ _ _ _ _ _ _ Hp).
Qed.

(** X11: recipients given in [config] decide alone: when they parse, the
    envelope's recipients are exactly their addresses, and the "To", "Cc"
    and "Bcc" headers of the message play no part. *)
Theorem NewEnvelope_recipient_arguments config m l :
  Recipients config <> [] ->
  obtain_message config = Ok m ->
  ParseAddressList (Join (Recipients config) ",") = Ok l ->
  AddressListToSlice l <> [] ->
  exists config' env,
    NewEnvelope config = (config', Ok env) /\
    env_Recipients env = AddressListToSlice l.
Proof.
  intros NE Ho Hp NL.
  destruct (obtained_prepare _ _ Ho) as (c & msg & Hc & HR).
  assert (R : resolve_recipients c msg = Ok (AddressListToSlice l)).
  { unfold sendmail.resolve_recipients. rewrite HR, Hp.
    destruct (Recipients config); [contradiction | reflexivity]. }
  unfold sendmail.NewEnvelope. rewrite Hc, R.
  destruct (AddressListToSlice l) as [|r rs] eqn:E; [contradiction|].
  cbn. now eexists _, _.
Qed.

(** X12: without recipients in [config] the recipients come from the
    headers of the message: an error of the "To" header, a missing one
    included, is returned even when "Cc" or "Bcc" name recipients; with
    a "To" header the recipients are those of "To", "Cc" and "Bcc", in
    this order, an unusable "Cc" or "Bcc" counting as empty. *)
Theorem NewEnvelope_header_recipients config m :
  Recipients config = [] ->
  obtain_message config = Ok m ->
  (forall e, AddressList (Header m) "To" = Err e ->
     snd (NewEnvelope config) = Err e) /\
  (forall to,
     AddressList (Header m) "To" = Ok to ->
     let rcpt := fun field =>
       match AddressList (Header m) field with
       | Ok l => l
       | Err _ => []
       end in
     let rs := AddressListToSlice (to ++ rcpt "Cc" ++ rcpt "Bcc") in
     rs <> [] ->
     exists config' env,
       NewEnvelope config = (config', Ok env) /\ env_Recipients env = rs).
Proof.
  intros NR Ho.
  destruct (obtained_prepare _ _ Ho) as (c & msg & Hc & HR).
  pose proof Hc as Hc'.
  apply prepare_inv in Hc' as (m' & m2 & s & Ho' & _ & _ & _ & _ & _ & K).
  rewrite Ho in Ho'. injection Ho' as <-.
  assert (A : forall key, key <> "From" -> key <> "Subject" ->
              AddressList (Header msg) key = AddressList (Header m) key)
    by (intros key N1 N2; apply AddressList_lookup; now apply K).
  unfold sendmail.NewEnvelope. rewrite Hc.
  unfold sendmail.resolve_recipients. rewrite HR, NR. cbn [length Nat.ltb Nat.leb].
  rewrite !A by discriminate. split.
  - now intros e ->.
  - intros to -> NE. rewrite <- app_assoc.
    destruct (AddressListToSlice _) as [|r rs'] eqn:E; [contradiction|].
    cbn. now eexists _, _.
Qed.

(** The recipients are resolved from what [config] and the message that
    was read hold: setting the sender, the port and the "From" and
    "Subject" headers does not touch them. *)
Lemma prepared_recipients config m c msg :
  obtain_message config = Ok m ->
  prepare config = Ok (c, msg) ->
  resolve_recipients c msg = resolve_recipients config m.
Proof.
  intros Ho Hp.
  pose proof (prepare_Recipients _ _ _ _ _ _ _ _ _ Hp) as HR.
  apply prepare_inv in Hp as (m' & m2 & s & Ho' & _ & _ & _ & _ & _ & K).
  rewrite Ho in Ho'. injection Ho' as <-.
  assert (A : forall key, key <> "From" -> key <> "Subject" ->
              AddressList (Header msg) key = AddressList (Header m) key)
    by (intros key N1 N2; apply AddressList_lookup; now apply K).
  unfold sendmail.resolve_recipients. rewrite HR.
  now rewrite !A by discriminate.
Qed.

(** The sender of an envelope built from a message without a sender of
    its own. *)
Lemma fallback_sender config m config' env :
  Sender config = "" ->
  obtain_message config = Ok m ->
  match AddressList (Header m) "From" with
  | Ok (_ :: _) => False
  | _ => True
  end ->
  NewEnvelope config = (config', Ok env) ->
  match user_Current, os_Hostname with
  | Ok u, Ok h =>
      Sender config' = u +:+ "@" +:+ h /\
      Header (env_Message env) !! "From" = Some [u +:+ "@" +:+ h]
  | _, _ =>
      Sender config' = "" /\
      Header (env_Message env) !! "From" = Header m !! "From" /\
      GetSender env = ""
  end.
Proof.
  intros S0 Ho NF N. apply NewEnvelope_inv in N as (msg' & Hp & <- & _).
  apply prepare_inv in Hp as (m' & m2 & s & Ho' & R & _ & _ & _ & K & _).
  rewrite Ho in Ho'. injection Ho' as <-.
  assert (S1 : Sender (with_port config) = "")
    by now destruct (is_empty (PortSMTP config)).
  unfold sendmail.resolve_sender in R. rewrite S1 in R. cbn [is_empty negb] in R.
  assert (G' : Header (env_Message env) !! "From" = Header m !! "From" ->
               GetSender env = "").
  { intros E. unfold message.GetSender.
    rewrite (AddressList_lookup _ _ _ E).
    now destruct (AddressList (Header m) "From") as [[|a l]|e]. }
  destruct (AddressList (Header m) "From") as [[|a l]|e]; [|destruct NF|];
    rewrite S1 in R; cbn [is_empty] in R;
    destruct user_Current as [u|]; try destruct os_Hostname as [h|];
    injection R as <- <-; rewrite (K "From") by discriminate.
  all: try (split; [reflexivity|]; cbn [set_header Header];
            now rewrite lookup_insert_eq).
  all: split; [exact S1|]; split; [reflexivity|];
       apply G'; now apply K.
Qed.

(** X13: with no sender in [config], no address in the "From" header
    and recipients that resolve to a non-empty list, [NewEnvelope] returns
    an envelope with those recipients.  Its sender is user@hostname of
    the running process, set as the "From" header too; when the user or
    the host name cannot be had, the envelope is returned all the same,
    with an empty sender and the "From" header as it was. *)
Theorem NewEnvelope_sender_fallback config m rs :
  Sender config = "" ->
  obtain_message config = Ok m ->
  match AddressList (Header m) "From" with
  | Ok (_ :: _) => False
  | _ => True
  end ->
  resolve_recipients config m = Ok rs ->
  rs <> [] ->
  exists config' env,
    NewEnvelope config = (config', Ok env) /\
    env_Recipients env = rs /\
    match user_Current, os_Hostname with
    | Ok u, Ok h =>
        Sender config' = u +:+ "@" +:+ h /\
        Header (env_Message env) !! "From" = Some [u +:+ "@" +:+ h]
    | _, _ =>
        Sender config' = "" /\
        Header (env_Message env) !! "From" = Header m !! "From" /\
        GetSender env = ""
    end.
Proof.
  intros S0 Ho NF HR NE.
  destruct (obtained_prepare _ _ Ho) as (c & msg & Hp & _).
  assert (N : NewEnvelope config =
              (c, Ok {| env_Message := msg; env_Recipients := rs;
                        env_PortSMTP := PortSMTP c |})).
  { unfold sendmail.NewEnvelope. rewrite Hp.
    rewrite (prepared_recipients _ _ _ _ Ho Hp), HR.
    destruct rs; [contradiction | reflexivity]. }
  eexists _, _. split; [exact N|]. split; [reflexivity|].
  exact (fallback_sender _ _ _ _ S0 Ho NF N).
Qed.

(** X14: with no sender in [config], the first address of the "From"
    header of the message is the sender; the header itself is left as it
    was. *)
Theorem NewEnvelope_sender_from_header config m a l config' env :
  Sender config = "" ->
  obtain_message config = Ok m ->
  AddressList (Header m) "From" = Ok (a :: l) ->
  Addr a <> "" ->
  NewEnvelope config = (config', Ok env) ->
  Sender config' = Addr a /\
  Header (env_Message env) !! "From" = Header m !! "From" /\
  GetSender env = Addr a.
Proof.
  intros S0 Ho HF NA N. apply NewEnvelope_inv in N as (msg' & Hp & <- & _).
  apply prepare_inv in Hp as (m' & m2 & s & Ho' & R & _ & _ & _ & K & _).
  rewrite Ho in Ho'. injection Ho' as <-.
  assert (S1 : Sender (with_port config) = "")
    by now destruct (is_empty (PortSMTP config)).
  unfold sendmail.resolve_sender in R. rewrite S1, HF in R.
  cbn [is_empty negb Sender set_Sender] in R.
  apply is_empty_false in NA. rewrite NA in R. injection R as <- <-.
  assert (F : Header (env_Message env) !! "From" = Header m !! "From")
    by now apply K.
  split; [reflexivity|]. split; [exact F|].
  unfold message.GetSender. now rewrite (AddressList_lookup _ _ _ F), HF.
Qed.

End Envelope.

Section Witnesses.
Import Examples Samples.

(** [NewEnvelope] with a reader, an address parser and a process owner
    fixed. *)
Local Abbreviation new_envelope read user :=
  (NewEnvelope read parse_one (fun s => s) user
     (Ok "client.example.org") dumb_message (map Addr)).

Lemma to_rcpt_built :
  new_envelope read_fails (Ok "root") to_rcpt =
  (set_PortSMTP "25" to_rcpt,
   Ok (envelope_of (new_envelope read_fails (Ok "root") to_rcpt))).
Proof. reflexivity. Qed.

Lemma from_headers_built read user :
  (exists env, snd (new_envelope read user from_headers) = Ok env) ->
  new_envelope read user from_headers =
  (fst (new_envelope read user from_headers),
   Ok (envelope_of (new_envelope read user from_headers))).
Proof.
  intros (env & E). unfold envelope_of. rewrite E.
  destruct (new_envelope read user from_headers) as [c r].
  cbn [fst snd] in *. now subst r.
Qed.

Lemma NewEnvelope_config_witness :
  env_PortSMTP (envelope_of (new_envelope read_fails (Ok "root") to_rcpt))
  = "25".
Proof.
  refine (proj2 (proj2 (proj2 (proj2
            (NewEnvelope_config read_fails parse_one (fun s => s) (Ok "root")
               (Ok "client.example.org") dumb_message (map Addr) to_rcpt))))
            _ _).
  reflexivity.
Defined.

Lemma NewEnvelope_keeps_message_witness :
  exists m,
    dumb_message "sender@example.org" ["rcpt@example.org"] "hello" = Ok m /\
    msg_Body
      (env_Message
         (envelope_of (new_envelope read_fails (Ok "root") to_rcpt)))
    = msg_Body m.
Proof.
  destruct (NewEnvelope_keeps_message read_fails parse_one (fun s => s)
              (Ok "root") (Ok "client.example.org") dumb_message (map Addr)
              to_rcpt _ _ to_rcpt_built) as (m & Ho & B & _).
  exists m. split; [exact Ho | exact B].
Defined.

Lemma NewEnvelope_explicit_sender_witness :
  GetSender parse_one
    (envelope_of (new_envelope read_fails (Ok "root") to_rcpt))
  = "sender@example.org".
Proof.
  refine (proj2 (proj2
            (NewEnvelope_explicit_sender read_fails parse_one (fun s => s)
               (Ok "root") (Ok "client.example.org") dumb_message (map Addr)
               to_rcpt _ _ _ to_rcpt_built)));
    discriminate.
Defined.

Lemma NewEnvelope_recipient_arguments_witness :
  exists config' env,
    new_envelope read_two_headers (Ok "root") to_rcpt = (config', Ok env) /\
    env_Recipients env = ["rcpt@example.org"].
Proof.
  refine (NewEnvelope_recipient_arguments read_two_headers parse_one
            (fun s => s) (Ok "root") (Ok "client.example.org") dumb_message
            (map Addr) to_rcpt (two_headers "hello")
            [{| Name := ""; Addr := "rcpt@example.org" |}] _ _ _ _);
    [discriminate | reflexivity | reflexivity | discriminate].
Defined.

Lemma NewEnvelope_header_recipients_witness :
  snd (new_envelope read_cc_only (Ok "root") from_headers)
  = Err ErrHeaderNotPresent /\
  exists config' env,
    new_envelope read_two_headers (Ok "root") from_headers
    = (config', Ok env) /\
    env_Recipients env = ["rcpt@example.org"; "copy@example.org"].
Proof.
  split.
  - refine (proj1 (NewEnvelope_header_recipients read_cc_only parse_one
                     (fun s => s) (Ok "root") (Ok "client.example.org")
                     dumb_message (map Addr) from_headers
                     {| Header := {[ "Cc" := ["copy@example.org"] ]};
                        msg_Body := "hello" |} eq_refl eq_refl) _ _).
    reflexivity.
  - refine (proj2 (NewEnvelope_header_recipients read_two_headers parse_one
                     (fun s => s) (Ok "root") (Ok "client.example.org")
                     dumb_message (map Addr) from_headers
                     (two_headers "hello") eq_refl eq_refl)
              [{| Name := ""; Addr := "rcpt@example.org" |}] _ _);
      [reflexivity | discriminate].
Defined.

Lemma NewEnvelope_sender_fallback_witness :
  (exists config' env,
     new_envelope read_two_headers (Ok "root") from_headers
     = (config', Ok env) /\
     env_Recipients env = ["rcpt@example.org"; "copy@example.org"] /\
     Sender config' = "root@client.example.org" /\
     Header (env_Message env) !! "From" = Some ["root@client.example.org"]) /\
  (exists config' env,
     new_envelope read_two_headers (Err "user: unknown userid 0")
       from_headers
     = (config', Ok env) /\
     env_Recipients env = ["rcpt@example.org"; "copy@example.org"] /\
     Sender config' = "" /\
     Header (env_Message env) !! "From" = None /\
     GetSender parse_one env = "").
Proof.
  split.
  - refine (NewEnvelope_sender_fallback read_two_headers parse_one
              (fun s => s) (Ok "root") (Ok "client.example.org")
              dumb_message (map Addr) from_headers (two_headers "hello")
              ["rcpt@example.org"; "copy@example.org"] eq_refl eq_refl I eq_refl _).
    discriminate.
  - refine (NewEnvelope_sender_fallback read_two_headers parse_one
              (fun s => s) (Err "user: unknown userid 0")
              (Ok "client.example.org")
              dumb_message (map Addr) from_headers (two_headers "hello")
              ["rcpt@example.org"; "copy@example.org"] eq_refl eq_refl I eq_refl _).
    discriminate.
Defined.

Lemma NewEnvelope_sender_from_header_witness :
  Sender (fst (new_envelope read_with_from (Ok "root") from_headers))
  = "author@example.org".
Proof.
  refine (proj1
            (NewEnvelope_sender_from_header read_with_from parse_one
               (fun s => s) (Ok "root") (Ok "client.example.org")
               dumb_message (map Addr) from_headers
               {| Header := {[ "From" := ["author@example.org"];
                              "To" := ["rcpt@example.org"] ]};
                  msg_Body := "hello" |}
               {| Name := ""; Addr := "author@example.org" |} []
               _ _ eq_refl eq_refl eq_refl _
               (from_headers_built read_with_from (Ok "root") _)));
    [discriminate | now eexists].
Defined.

End Witnesses.

End sendmail_more.

(** * Properties of the generated message *)
Module message_proofs.
Import sendmail message.

(** ** Strings *)

Lemma append_cons (c : ascii) (a b : string) :
  String c a +:+ b = String c (a +:+ b).
Proof. reflexivity. Qed.

Lemma append_nil_r (a : string) : a +:+ "" = a.
Proof. induction a as [|c a IH]; [reflexivity|]. now rewrite append_cons, IH. Qed.

Lemma append_assoc (a b c : string) : (a +:+ b) +:+ c = a +:+ (b +:+ c).
Proof.
  induction a as [|x a IH]; [reflexivity|]. now rewrite !append_cons, IH.
Qed.

Lemma length_append (a b : string) :
  String.length (a +:+ b) = String.length a + String.length b.
Proof.
  induction a as [|x a IH]; [reflexivity|].
  rewrite append_cons. cbn [String.length]. now rewrite IH.
Qed.

Lemma substring_all (s : string) : substring 0 (String.length s) s = s.
Proof. induction s as [|c s IH]; [reflexivity|]. cbn. now rewrite IH. Qed.

Lemma substring_skip (x s : string) (n m : nat) :
  substring (String.length x + n) m (x +:+ s) = substring n m s.
Proof.
  induction x as [|c x IH]; [reflexivity|].
  rewrite append_cons. cbn [String.length Nat.add substring]. exact IH.
Qed.

(** A suffix that fits in [s] is a suffix of [x +:+ s] exactly when it is
    one of [s]. *)
Lemma HasSuffix_skip (x s suffix : string) :
  String.length suffix <= String.length s ->
  HasSuffix (x +:+ s) suffix = HasSuffix s suffix.
Proof.
  intros L. unfold HasSuffix. rewrite length_append.
  replace (String.length x + String.length s - String.length suffix)
    with (String.length x + (String.length s - String.length suffix)) by lia.
  rewrite substring_skip.
  destruct (Nat.leb_spec (String.length suffix) (String.length s)); [|lia].
  destruct (Nat.leb_spec (String.length suffix)
              (String.length x + String.length s)); [reflexivity | lia].
Qed.

Lemma HasSuffix_refl (s : string) : HasSuffix s s = true.
Proof.
  unfold HasSuffix. rewrite Nat.leb_refl, Nat.sub_diag, substring_all.
  now rewrite String.eqb_refl.
Qed.

Lemma HasSuffix_append (x suffix : string) :
  HasSuffix (x +:+ suffix) suffix = true.
Proof. rewrite HasSuffix_skip by lia. apply HasSuffix_refl. Qed.

(** After the blank line, the buffer ends in CRLF exactly when the body
    is empty or ends in CRLF itself. *)
Lemma HasSuffix_after_blank_line (head body : string) :
  HasSuffix ((head +:+ CRLF) +:+ body) CRLF =
  is_empty body || HasSuffix body CRLF.
Proof.
  destruct body as [|c [|d body]].
  - rewrite append_nil_r. cbn [is_empty orb]. apply HasSuffix_append.
  - replace ((head +:+ CRLF) +:+ String c "")
      with ((head +:+ String nvsmtp.CR "") +:+
            String nvsmtp.LF (String c ""))
      by (unfold CRLF; now rewrite !append_assoc).
    rewrite HasSuffix_skip by (cbn; lia). reflexivity.
  - rewrite HasSuffix_skip by (cbn; lia). reflexivity.
Qed.

Lemma prefix_append (p q : string) : String.prefix p (p +:+ q) = true.
Proof.
  induction p as [|c p IH]; [now destruct q|].
  rewrite append_cons. cbn [String.prefix].
  destruct (ascii_dec c c); [exact IH | contradiction].
Qed.

(** ** The order of the header lines *)

Lemma sort_Strings_sorted (keys : list string) :
  Sorted String.le (sort_Strings keys).
Proof. apply Sorted_merge_sort; apply _. Qed.

(** The sorted keys do not depend on the order they were collected in. *)
Lemma sort_Strings_perm (keys keys' : list string) :
  keys ≡ₚ keys' -> sort_Strings keys = sort_Strings keys'.
Proof.
  intros Hp. apply (Sorted_unique String.le).
  - apply sort_Strings_sorted.
  - apply sort_Strings_sorted.
  - unfold sort_Strings. now rewrite !merge_sort_Permutation.
Qed.

(** The header lines of an envelope for a given collection of keys. *)
Local Abbreviation header_block keys e :=
  (fold_left (write_header (Header (env_Message e))) (sort_Strings keys) "").

Lemma size_zero (h : gmap string (list string)) :
  (size h =? 0)%nat = true <-> h = ∅.
Proof. rewrite Nat.eqb_eq. apply map_size_empty_iff. Qed.

Section Generate.

Variable ReadFrom : string -> result string * string.

Local Abbreviation GenerateMessage_from := (GenerateMessage_from ReadFrom).
Local Abbreviation GenerateMessage := (GenerateMessage ReadFrom).

(** A call that succeeds: the envelope has headers, the body was read
    without error, and the output is built from what was read. *)
Lemma GenerateMessage_Ok keys e out e' :
  GenerateMessage_from keys e = (Ok out, e') ->
  exists data body,
    (size (Header (env_Message e)) =? 0)%nat = false /\
    ReadFrom (msg_Body (env_Message e)) = (Ok data, body) /\
    e' = set_Body body e /\
    out = (if negb (HasSuffix ((header_block keys e +:+ CRLF) +:+ data) CRLF)
           then ((header_block keys e +:+ CRLF) +:+ data) +:+ CRLF
           else (header_block keys e +:+ CRLF) +:+ data).
Proof.
  unfold message.GenerateMessage_from.
  destruct (size _ =? 0)%nat; [discriminate|].
  cbv zeta. destruct (ReadFrom _) as [[data|err] body]; [|discriminate].
  intros E. injection E as <- <-. now exists data, body.
Qed.

(** X15: [GenerateMessage] gives the same result whatever the order in
    which the header map is ranged over: the header lines are written in
    the sorted order of the keys. *)
Theorem GenerateMessage_order_independent keys e :
  keys ≡ₚ map fst (map_to_list (Header (env_Message e))) ->
  GenerateMessage_from keys e = GenerateMessage e /\
  Sorted String.le (sort_Strings keys).
Proof.
  intros Hp. split; [|apply sort_Strings_sorted].
  unfold message.GenerateMessage, message.GenerateMessage_from.
  now rewrite (sort_Strings_perm _ _ Hp).
Qed.

(** X16: an envelope without headers gives the error "empty header" and
    is left as it was, its body not read.  With headers, the body is
    read: an error of the read is returned as it is, with no output;
    when the read succeeds the call succeeds and the generated message
    ends in CRLF.  In both cases the envelope is left with what the read
    left of its body. *)
Theorem GenerateMessage_ends_with_CRLF keys e :
  (Header (env_Message e) = ∅ ->
     GenerateMessage_from keys e = (Err err_empty_header, e)) /\
  (Header (env_Message e) <> ∅ ->
     (forall err body,
        ReadFrom (msg_Body (env_Message e)) = (Err err, body) ->
        GenerateMessage_from keys e = (Err err, set_Body body e)) /\
     (forall data body,
        ReadFrom (msg_Body (env_Message e)) = (Ok data, body) ->
        exists out,
          GenerateMessage_from keys e = (Ok out, set_Body body e) /\
          HasSuffix out CRLF = true)).
Proof.
  unfold message.GenerateMessage_from. split.
  - intros E. apply size_zero in E. now rewrite E.
  - intros NE. destruct (size _ =? 0)%nat eqn:S0;
      [apply size_zero in S0; contradiction|].
    cbv zeta. split.
    + now intros err body ->.
    + intros data body ->. set (buf := (_ +:+ CRLF) +:+ _).
      destruct (HasSuffix buf CRLF) eqn:H; cbn [negb];
        eexists; (split; [reflexivity|]);
        [exact H | apply HasSuffix_append].
Qed.

(** X17: the generated message is the header lines, a blank line and the
    body as it was read, and one CRLF more exactly when that body is not
    empty and does not end in CRLF. *)
Theorem GenerateMessage_shape keys e out e' :
  GenerateMessage_from keys e = (Ok out, e') ->
  exists body,
    fst (ReadFrom (msg_Body (env_Message e))) = Ok body /\
    out = header_block keys e +:+ CRLF +:+ body +:+
          (if is_empty body || HasSuffix body CRLF then "" else CRLF).
Proof.
  intros E. apply GenerateMessage_Ok in E as (data & body & _ & R & _ & ->).
  exists data. rewrite R. split; [reflexivity|].
  rewrite HasSuffix_after_blank_line.
  destruct (is_empty _ || HasSuffix _ CRLF); cbn [negb];
    now rewrite ?append_nil_r, !append_assoc.
Qed.

(** X18: generating the message uses the body up.  When the reader the
    first call leaves behind is at its end, so that reading it again
    gives no bytes and no error, a second call on that envelope gives the
    header lines and the blank line, and no body; that is the beginning
    of the first output. *)
Theorem GenerateMessage_twice keys e out e' :
  GenerateMessage_from keys e = (Ok out, e') ->
  ReadFrom (msg_Body (env_Message e')) = (Ok "", msg_Body (env_Message e')) ->
  GenerateMessage_from keys e' =
    (Ok (header_block keys e +:+ CRLF), e') /\
  String.prefix (header_block keys e +:+ CRLF) out = true.
Proof.
  intros E EOF.
  apply GenerateMessage_Ok in E as (data & body & S0 & R & -> & ->).
  split.
  - unfold message.GenerateMessage_from.
    cbn [set_Body env_Message Header msg_Body] in *.
    rewrite S0, EOF. cbv zeta.
    rewrite append_nil_r, HasSuffix_append. reflexivity.
  - destruct (negb _);
      rewrite ?(append_assoc (header_block keys e +:+ CRLF));
      apply prefix_append.
Qed.

End Generate.

Section Witnesses.
Import Examples Samples.

Lemma two_headers_not_empty body :
  Header (env_Message (two_header_envelope body)) <> ∅.
Proof. apply insert_non_empty. Qed.

Lemma two_headers_generated :
  GenerateMessage_from in_memory ["To"; "Cc"] (two_header_envelope "hello") =
  (Ok (bytes_of (GenerateMessage_from in_memory ["To"; "Cc"]
                   (two_header_envelope "hello"))),
   two_header_envelope "").
Proof. reflexivity. Qed.

Lemma GenerateMessage_order_independent_witness :
  GenerateMessage_from in_memory ["To"; "Cc"] (two_header_envelope "hello") =
  GenerateMessage in_memory (two_header_envelope "hello").
Proof.
  refine (proj1 (GenerateMessage_order_independent in_memory ["To"; "Cc"]
                   (two_header_envelope "hello") _)).
  vm_compute. apply perm_swap.
Defined.

Lemma GenerateMessage_ends_with_CRLF_witness :
  GenerateMessage_from breaking [] an_envelope
  = (Err err_empty_header, an_envelope) /\
  GenerateMessage_from breaking ["To"; "Cc"] (two_header_envelope "hello")
  = (Err connection_reset, two_header_envelope "ello") /\
  exists out,
    GenerateMessage_from in_memory ["To"; "Cc"] (two_header_envelope "hello")
    = (Ok out, two_header_envelope "") /\
    HasSuffix out CRLF = true.
Proof.
  split; [|split].
  - exact (proj1 (GenerateMessage_ends_with_CRLF breaking [] an_envelope)
             eq_refl).
  - exact (proj1 (proj2 (GenerateMessage_ends_with_CRLF breaking
                           ["To"; "Cc"] (two_header_envelope "hello"))
                    (two_headers_not_empty "hello"))
             connection_reset "ello" eq_refl).
  - exact (proj2 (proj2 (GenerateMessage_ends_with_CRLF in_memory
                           ["To"; "Cc"] (two_header_envelope "hello"))
                    (two_headers_not_empty "hello"))
             "hello" "" eq_refl).
Defined.

Lemma GenerateMessage_shape_witness :
  exists body,
    fst (in_memory "hello") = Ok body /\
    bytes_of (GenerateMessage_from in_memory ["To"; "Cc"]
                (two_header_envelope "hello"))
    = fold_left (write_header (Header (two_headers "hello")))
        (sort_Strings ["To"; "Cc"]) ""
      +:+ CRLF +:+ body +:+
      (if is_empty body || HasSuffix body CRLF then "" else CRLF).
Proof.
  exact (GenerateMessage_shape in_memory ["To"; "Cc"]
           (two_header_envelope "hello") _ _ two_headers_generated).
Defined.

Lemma GenerateMessage_twice_witness :
  fst (GenerateMessage_from in_memory ["To"; "Cc"] (two_header_envelope ""))
  = Ok (("Cc: copy@example.org" +:+ CRLF +:+
         "To: rcpt@example.org" +:+ CRLF) +:+ CRLF).
Proof.
  exact (f_equal fst
           (proj1 (GenerateMessage_twice in_memory ["To"; "Cc"]
                     (two_header_envelope "hello") _ _
                     two_headers_generated eq_refl))).
Defined.

End Witnesses.

End message_proofs.

(** * Properties of the command *)
Module cmd_proofs.
Import sendmail message cmd message_proofs.

(** ** The list of sender domains *)

Lemma Contains_In (d : arrayDomains) (str : string) :
  arrayDomains_Contains d str = true <-> In str d.
Proof.
  induction d as [|x d IH]; cbn [arrayDomains_Contains In].
  - intuition discriminate.
  - destruct (String.eqb_spec x str) as [->|N]; [intuition|].
    rewrite IH. intuition congruence.
Qed.

(** X19: [Contains] is membership with exact, case-sensitive comparison,
    and [Set] adds its value at the end: afterwards the value is
    contained, and so is everything that was. *)
Theorem arrayDomains_Set_Contains (d : arrayDomains) (value str : string) :
  (arrayDomains_Contains d str = true <-> In str d) /\
  arrayDomains_Contains (arrayDomains_Set d value) str =
    arrayDomains_Contains d str || String.eqb value str.
Proof.
  split; [apply Contains_In|].
  - unfold arrayDomains_Set.
    induction d as [|x d IH]; cbn [arrayDomains_Contains app].
    + now destruct (String.eqb value str).
    + destruct (String.eqb x str); [reflexivity | exact IH].
Qed.

(** X20: the sender's domain passes the check of [main] exactly when no
    sender domain was configured or the domain is one of those
    configured, letter for letter. *)
Theorem sender_allowed_iff (senderDomains : arrayDomains)
    (senderDomain : string) :
  sender_allowed senderDomains senderDomain = true <->
  senderDomains = [] \/ In senderDomain senderDomains.
Proof.
  unfold sender_allowed.
  pose proof (Contains_In senderDomains senderDomain) as C.
  destruct senderDomains as [|x d]; [cbn; intuition|].
  cbn [length Nat.ltb Nat.leb andb]. rewrite negb_involutive, C.
  intuition discriminate.
Qed.

(** ** Reading the message from standard input *)

Lemma contains_NL (c : ascii) :
  nvsmtp.contains_byte c NL = Ascii.eqb c nvsmtp.LF.
Proof. unfold NL. cbn [nvsmtp.contains_byte]. apply orb_false_r. Qed.

Lemma ReadBytes_eof input line :
  ReadBytes input nvsmtp.LF = (line, None) ->
  nvsmtp.ContainsAny input NL = false.
Proof.
  revert line. induction input as [|c s IH]; intros line; [reflexivity|].
  cbn [ReadBytes nvsmtp.ContainsAny]. rewrite contains_NL.
  destruct (Ascii.eqb c nvsmtp.LF); [discriminate|].
  destruct (ReadBytes s nvsmtp.LF) as [l [r|]]; [discriminate|].
  intros _. now apply (IH l).
Qed.

Lemma ReadBytes_line input line rest :
  ReadBytes input nvsmtp.LF = (line, Some rest) ->
  is_line line /\ input = line +:+ rest /\
  String.length rest < String.length input.
Proof.
  revert line. induction input as [|c s IH]; intros line; [discriminate|].
  cbn [ReadBytes]. destruct (Ascii.eqb_spec c nvsmtp.LF) as [->|N].
  - intros E. injection E as <- <-. split; [now exists ""|].
    split; [reflexivity | cbn; lia].
  - destruct (ReadBytes s nvsmtp.LF) as [l [r|]]; [|discriminate].
    intros E. injection E as <- <-.
    destruct (IH l eq_refl) as ((text & -> & T) & -> & L).
    split; [|split].
    + exists (String c text). split; [reflexivity|].
      cbn [nvsmtp.ContainsAny]. rewrite contains_NL, T.
      apply Ascii.eqb_neq in N. now rewrite N.
    + reflexivity.
    + cbn [String.length]. lia.
Qed.

Lemma ReadBytes_text text rest :
  nvsmtp.ContainsAny text NL = false ->
  ReadBytes ((text +:+ NL) +:+ rest) nvsmtp.LF = (text +:+ NL, Some rest).
Proof.
  induction text as [|c t IH]; intros T.
  - reflexivity.
  - cbn [nvsmtp.ContainsAny] in T. rewrite contains_NL in T.
    apply orb_false_iff in T as [Tc Tt].
    rewrite !append_cons. cbn [ReadBytes]. rewrite Tc, (IH Tt). reflexivity.
Qed.

Lemma line_has_NL text rest :
  nvsmtp.ContainsAny ((text +:+ NL) +:+ rest) NL = true.
Proof.
  induction text as [|c t IH]; [reflexivity|].
  rewrite !append_cons. cbn [nvsmtp.ContainsAny]. rewrite IH.
  apply orb_true_r.
Qed.

Lemma TrimRight_line text :
  nvsmtp.ContainsAny text NL = false -> TrimRight (text +:+ NL) NL = text.
Proof.
  induction text as [|c t IH]; intros T; [reflexivity|].
  cbn [nvsmtp.ContainsAny] in T. rewrite contains_NL in T.
  apply orb_false_iff in T as [Tc Tt].
  rewrite append_cons. cbn [TrimRight]. rewrite (IH Tt), contains_NL, Tc.
  now destruct t.
Qed.

(** Trimming the line feeds off a line leaves its text. *)
Lemma Trim_line text :
  nvsmtp.ContainsAny text NL = false -> Trim (text +:+ NL) NL = text.
Proof.
  intros T. unfold Trim. destruct text as [|c t]; [reflexivity|].
  pose proof T as T'. cbn [nvsmtp.ContainsAny] in T'.
  apply orb_false_iff in T' as [Tc _].
  rewrite append_cons. cbn [TrimLeft]. rewrite Tc, <- append_cons.
  now apply TrimRight_line.
Qed.

(** One pass of the loop over a line that does not end the input. *)
Lemma read_loop_step fuel (ignoreDot : bool) l rest body :
  (if ignoreDot then is_line l else is_text_line l) ->
  read_loop (S fuel) ignoreDot (l +:+ rest) body =
  read_loop fuel ignoreDot rest (body +:+ l).
Proof.
  intros H.
  assert (Q : exists text, l = text +:+ NL /\
                           nvsmtp.ContainsAny text NL = false /\
                           (ignoreDot = false -> text <> ".")).
  { destruct ignoreDot.
    - destruct H as (t & -> & T). exists t. repeat split; auto; discriminate.
    - destruct H as (t & -> & T & N). exists t. auto. }
  destruct Q as (text & -> & T & N).
  cbn [read_loop]. rewrite (ReadBytes_text _ _ T), (Trim_line _ T).
  destruct ignoreDot; [reflexivity|]. cbn [negb andb].
  destruct (String.eqb_spec text "."); [now destruct N | reflexivity].
Qed.

Lemma is_line_length l : is_line l -> 0 < String.length l.
Proof.
  intros (t & -> & _). rewrite length_append. cbn. lia.
Qed.

Lemma line_of (ignoreDot : bool) l :
  (if ignoreDot then is_line l else is_text_line l) -> is_line l.
Proof.
  destruct ignoreDot; [auto|]. intros (t & -> & T & _). now exists t.
Qed.

(** The loop over whole lines: they all go to the body. *)
Lemma read_loop_lines (ignoreDot : bool) lines :
  Forall (fun l => if ignoreDot then is_line l else is_text_line l) lines ->
  forall fuel rest body,
    String.length (join_lines lines +:+ rest) < fuel ->
    exists fuel',
      String.length rest < fuel' /\
      read_loop fuel ignoreDot (join_lines lines +:+ rest) body =
      read_loop fuel' ignoreDot rest (body +:+ join_lines lines).
Proof.
  induction 1 as [|l ls Hl _ IH]; intros fuel rest body L.
  - exists fuel. cbn [join_lines fold_right] in *.
    now rewrite append_nil_r.
  - cbn [join_lines fold_right] in *. fold (join_lines ls) in *.
    rewrite append_assoc in *.
    destruct fuel as [|fuel]; [lia|].
    rewrite (read_loop_step _ _ _ _ _ Hl).
    pose proof (is_line_length _ (line_of _ _ Hl)) as P.
    rewrite length_append in L.
    destruct (IH fuel rest (body +:+ l)) as (f' & L' & E); [lia|].
    exists f'. split; [exact L'|]. now rewrite E, append_assoc.
Qed.

(** What the loop adds to the body is an initial part of the input, made
    of whole lines. *)
Lemma read_loop_prefix ignoreDot fuel :
  forall input body,
    String.length input < fuel ->
    exists kept rest,
      read_loop fuel ignoreDot input body = body +:+ kept /\
      input = kept +:+ rest /\
      (kept = "" \/ HasSuffix kept NL = true) /\
      (ignoreDot = true -> nvsmtp.ContainsAny rest NL = false).
Proof.
  induction fuel as [|fuel IH]; intros input body L; [lia|].
  cbn [read_loop].
  destruct (ReadBytes input nvsmtp.LF) as [line [rest|]] eqn:R.
  - apply ReadBytes_line in R as ((text & -> & T) & -> & L').
    destruct (negb ignoreDot && String.eqb (Trim (text +:+ NL) NL) ".")
      eqn:D.
    + exists "", ((text +:+ NL) +:+ rest). rewrite append_nil_r.
      repeat split; auto.
      intros ->. discriminate D.
    + destruct (IH rest (body +:+ (text +:+ NL))) as (k & r & E & -> & S & N);
        [lia|].
      exists ((text +:+ NL) +:+ k), r. rewrite E, !append_assoc.
      repeat split; [|exact N].
      right. destruct S as [->|S].
      * rewrite append_nil_r. apply HasSuffix_append.
      * rewrite <- append_assoc, HasSuffix_skip; [exact S|].
        destruct k; [discriminate S | cbn; lia].
  - apply ReadBytes_eof in R. exists "", input. rewrite append_nil_r.
    repeat split; auto.
Qed.

(** More passes than the input has bytes all give the same body. *)
Lemma read_loop_fuel ignoreDot f1 :
  forall f2 input body,
    String.length input < f1 ->
    String.length input < f2 ->
    read_loop f1 ignoreDot input body = read_loop f2 ignoreDot input body.
Proof.
  induction f1 as [|f1 IH]; intros f2 input body L1 L2; [lia|].
  destruct f2 as [|f2]; [lia|]. cbn [read_loop].
  destruct (ReadBytes input nvsmtp.LF) as [line [rest|]] eqn:R;
    [|reflexivity].
  apply ReadBytes_line in R as (_ & _ & L).
  destruct (negb ignoreDot && _); [reflexivity|]. apply IH; lia.
Qed.

(** X21: what [main] reads from standard input is an initial part of the
    input made of whole lines: it is empty or ends in a line feed, so an
    unterminated last line is never part of the message, and input
    without a line feed gives the empty body.  With [-i] only a rest
    without line feed is left out.  The loop needs no more passes than
    the input has bytes, and one. *)
Theorem read_stdin_whole_lines ignoreDot input :
  (exists rest,
     input = read_stdin ignoreDot input +:+ rest /\
     (read_stdin ignoreDot input = "" \/
      HasSuffix (read_stdin ignoreDot input) NL = true) /\
     (ignoreDot = true -> nvsmtp.ContainsAny rest NL = false) /\
     (nvsmtp.ContainsAny input NL = false ->
      read_stdin ignoreDot input = "")) /\
  forall fuel,
    String.length input < fuel ->
    read_loop fuel ignoreDot input "" = read_stdin ignoreDot input.
Proof.
  split; [|intros fuel L; apply read_loop_fuel; lia].
  unfold read_stdin.
  destruct (read_loop_prefix ignoreDot (S (String.length input)) input "")
    as (k & r & E & I & S & N); [lia|].
  change ("" +:+ k) with k in E. rewrite E.
  exists r. repeat split; auto.
  intros T. cbn [read_loop] in E.
  destruct (ReadBytes input nvsmtp.LF) as [line [rest|]] eqn:R;
    [|congruence].
  apply ReadBytes_line in R as ((text & -> & _) & -> & _).
  rewrite line_has_NL in T. discriminate T.
Qed.

(** X22: without [-i], the lines before the first line that is a single
    dot are the message, and nothing from that line on is read. *)
Theorem read_stdin_dot lines rest :
  Forall is_text_line lines ->
  read_stdin false (join_lines lines +:+ ("." +:+ NL) +:+ rest) =
  join_lines lines.
Proof.
  intros H. unfold read_stdin.
  destruct (read_loop_lines false lines H _ (("." +:+ NL) +:+ rest) ""
              (Nat.lt_succ_diag_r _)) as (f & L & ->).
  destruct f as [|f]; [lia|].
  change ("" +:+ join_lines lines) with (join_lines lines).
  cbn [read_loop].
  rewrite (ReadBytes_text "." rest eq_refl). reflexivity.
Qed.

(** X23: input in which no line is a single dot, and with [-i] any
    input, gives all its whole lines as the message; what follows the
    last line feed is left out. *)
Theorem read_stdin_all_lines (ignoreDot : bool) lines tail :
  Forall (fun l => if ignoreDot then is_line l else is_text_line l) lines ->
  nvsmtp.ContainsAny tail NL = false ->
  read_stdin ignoreDot (join_lines lines +:+ tail) = join_lines lines.
Proof.
  intros H T. unfold read_stdin.
  destruct (read_loop_lines ignoreDot lines H _ tail ""
              (Nat.lt_succ_diag_r _)) as (f & L & ->).
  destruct f as [|f]; [lia|].
  change ("" +:+ join_lines lines) with (join_lines lines).
  cbn [read_loop].
  destruct (ReadBytes tail nvsmtp.LF) as [line [rest|]] eqn:R;
    [|reflexivity].
  apply ReadBytes_line in R as ((text & -> & _) & -> & _).
  rewrite line_has_NL in T. discriminate T.
Qed.

Section Witnesses.

Lemma text_line (text : string) :
  nvsmtp.ContainsAny text NL = false -> text <> "." ->
  is_text_line (text +:+ NL).
Proof. intros T N. now exists text. Qed.

Lemma arrayDomains_Set_Contains_witness :
  arrayDomains_Contains
    (arrayDomains_Set ["example.org"] "example.net") "example.net" = true /\
  arrayDomains_Contains ["example.org"; "example.net"] "example.net" = true.
Proof.
  destruct (arrayDomains_Set_Contains ["example.org"] "example.net"
              "example.net") as [_ S].
  destruct (arrayDomains_Set_Contains ["example.org"; "example.net"] ""
              "example.net") as [[_ C] _].
  split; [rewrite S; reflexivity | apply C; right; now left].
Defined.

Lemma sender_allowed_iff_witness :
  sender_allowed [] "example.org" = true /\
  sender_allowed ["example.org"] "example.org" = true /\
  sender_allowed ["example.org"] "Example.org" <> true.
Proof.
  split; [|split].
  - apply (proj2 (sender_allowed_iff [] "example.org")). now left.
  - apply (proj2 (sender_allowed_iff ["example.org"] "example.org")).
    right. now left.
  - intros H.
    apply (proj1 (sender_allowed_iff ["example.org"] "Example.org")) in H.
    destruct H as [H|[H|[]]]; discriminate H.
Defined.

Lemma read_stdin_whole_lines_witness :
  read_stdin false "no line feed at all" = "" /\
  read_loop 100 true ("one" +:+ NL +:+ "two") "" =
  read_stdin true ("one" +:+ NL +:+ "two").
Proof.
  split.
  - destruct (read_stdin_whole_lines false "no line feed at all")
      as [(rest & _ & _ & _ & E) _].
    apply E. reflexivity.
  - destruct (read_stdin_whole_lines true ("one" +:+ NL +:+ "two"))
      as [_ F].
    apply F. vm_compute. lia.
Defined.

Lemma read_stdin_dot_witness :
  read_stdin false
    (join_lines ["Subject: hi" +:+ NL; NL; "hello" +:+ NL] +:+
     ("." +:+ NL) +:+ "not read" +:+ NL)
  = join_lines ["Subject: hi" +:+ NL; NL; "hello" +:+ NL].
Proof.
  apply (read_stdin_dot ["Subject: hi" +:+ NL; NL; "hello" +:+ NL]
           ("not read" +:+ NL)).
  repeat constructor.
  - apply text_line; [reflexivity | discriminate].
  - apply (text_line ""); [reflexivity | discriminate].
  - apply text_line; [reflexivity | discriminate].
Defined.

Lemma read_stdin_all_lines_witness :
  read_stdin true (join_lines ["hello" +:+ NL; "." +:+ NL] +:+ "rest")
  = join_lines ["hello" +:+ NL; "." +:+ NL].
Proof.
  apply (read_stdin_all_lines true ["hello" +:+ NL; "." +:+ NL] "rest");
    [|reflexivity].
  repeat constructor.
  - now exists "hello".
  - now exists ".".
Defined.

End Witnesses.

End cmd_proofs.
